(* ===== verification/_CoqProject ===== *)
-Q . S2P
Prelude.v
Labels.v
Digest.v
Blake2b.v
Cbor.v
Types.v
Hasher.v
Component.v
Vectors.v
Instruction.v
Keys.v
Bor.v
Signature.v
Builder.v
Wallet.v
