(* ===== verification/Prelude.v ===== *)
(** * Verification of the Tari wallet library (tari_wallet_lib)

    The program builds signed transactions and derives component addresses
    for the Tari network.  Its parts, leaves first:

    - the domain label registry ([EngineHashDomainLabel], [as_label]) and
      the two hash domains declared with [hash_domain!]
      (src/tari_wallet_lib/src/hashing.rs);
    - the canonical hashers [TariHasher32] and [TariHasher64]: a Blake2b
      state seeded with a domain separation tag, fed with the canonical
      encoding of values through a [Write] adapter (same file);
    - address derivation: [new_component_address_from_parts] and the two
      account conveniences (src/tari_wallet_lib/src/component.rs);
    - the transaction signature: the challenge of an instruction sequence
      and a Schnorr signature of it
      (src/tari_wallet_lib/src/transaction/signature.rs);
    - the transaction builder, which the exposed operations drive
      (transaction/transaction.rs, not among the sources at hand);
    - the exposed operations, which parse their arguments, assemble
      instruction sequences, and run builder, signer and hasher
      (src/tari_wallet_lib/src/lib.rs).

    ** Files

    - [Prelude] (this file): bytes, the [outcome] monad that carries the
      two ways a Rust function of the program can fail (a returned
      [Err], a panic of [expect]/[unwrap]), the faults of a pipeline
      ([faults_in]), hexadecimal strings, shared list lemmas, the tactics
      and the hint databases.
    - [Labels]: the label registry and the domain separation tag.
    - [Digest]: the interfaces the hashers consume: a streaming digest
      ([Digest], the contract of [Blake2b<U32>] and [Blake2b<U64>]), the
      [Write] sink and the canonical encoder ([Serialize], [Canonical]),
      with reference instances that compute.
    - [Blake2b]: the digest itself (RFC 7693) for both widths, as the
      streaming state the interface asks for and as the one-shot
      function, proved equal; the invariant of the state; the instances
      [Blake2b_256], [Blake2b_512].
    - [Cbor]: CBOR heads and strings, the wire format of the encoder.
    - [Types]: [Hash], [TemplateAddress], [ComponentAddress].
    - [Hasher]: [TariHasher32], [TariHasher64] and the four constructor
      functions of hashing.rs.
    - [Component]: component.rs.
    - [Vectors]: the hashers over Blake2b: the digest and the state
      inside a hasher, the known answers of the RFC and the addresses of
      a fixed key.
    - [Instruction]: instructions, arguments and the values lib.rs passes;
      the interface [TemplateLib] of their encoders.
    - [Keys]: the interface [Schnorr] of the key primitives, the
      hexadecimal import and export of keys, and a toy instance.
    - [Bor]: a reference encoder (CBOR items) with the proof that it is
      canonical; the instance [BorTemplateLib].
    - [Signature]: signature.rs ([Module TransactionSignature]).
    - [Builder]: [Module Transaction] and [Module TransactionBuilder], a
      state machine modelled from its specification.
    - [Wallet]: the six exposed operations of lib.rs against the
      interface [WasmBindgen] of the binding layer.

    ** Correspondence

    A Rust function [f(&mut self, x)] is a function from the state and [x]
    to the new state; a function that consumes [self] and returns it
    ([chain], the builder's methods) is the same function.  A function
    that returns [Result] or may panic returns an [outcome]: [Ok a],
    [Err f] for a returned error, [Panic f] for an [expect]/[unwrap] that
    fails.  Byte strings are [list byte]; fixed-size arrays are records
    around a [list byte] with a well-formedness predicate on the length,
    proved of every constructor.  Strings are [string]; the labels and
    domain names of the program are ASCII, so a string's bytes are
    [list_byte_of_string].  A trait the program is generic in, or a crate
    it only calls, is a class: the definitions take an instance, the
    theorems hold for every instance, and the witnesses run with the
    instances of the development ([Blake2b_256] and [Blake2b_512], the
    digest the program uses; [WindowDigest] and [CountDigest], digests
    with collisions that make the hypotheses of the reductions true;
    [ToySchnorr], [BorTemplateLib], [ToyBindgen]).  Signing draws a
    nonce inside the primitive; the model passes the nonce as an
    argument.  signature.rs names a label
    [InstructionSignature] that the registry does not have; the label is
    a variable of the files [Signature], [Builder] and [Wallet].

    ** What is proved

    - Registry: the tags are pairwise distinct and non-empty; the
      registry is finite and enumerated.
    - Tag: the length prefix is exact and fits 64 bits; under one domain
      the tag is prefix-free in the label, so two hashers with different
      labels absorb different byte streams whatever is chained after.
    - Hashers: what each operation absorbs, on the success and on the panic
      branch; the digest is the reference hash of
      tag ++ encodings in chaining order, after one value and, by
      induction on the updates ([reachable32]), after any sequence of
      values; the same for the long hasher; the writer never fails and
      never writes short, and the loop of [write_all] over it ends after
      one round; chunking of the encoder's writes is irrelevant.
    - Addresses: functional specification, error behaviour on malformed
      hexadecimal input, injectivity of the absorbed stream in
      (template, component id) and the reduction of an address clash to a
      collision of the digest.
    - Signature: the outcome of [sign] and [verify] on every branch; a
      signature verifies on its instructions; verification on other
      instructions reduces to a collision of the digest or to a signature
      the primitive accepts on a message it was not made for; a challenge
      is no address.
    - Builder: the builder refines the three-phase machine, with
      [BuilderMisuse] exactly where the abstract machine has no move;
      the invariant of reachable
      builders (a signed builder carries a signature made for its fee
      instructions), hence every built transaction verifies; signing
      happens at most once and last.
    - Exposed operations: each as a pipeline of its parts; the
      instruction sequences of the transfer and of the faucet transaction
      in their order; the faults each can produce (the builder is never
      misused, the [unwrap] of a key's bytes never fails); success on
      well-formed input; the public key the library exports is accepted
      by the address derivation.
    - Encoder: CBOR heads are prefix-free; the reference encoder of items
      is canonical, by nested induction on items.
    - Blake2b: the streaming state after any input is the state the
      one-shot function reaches before its last block, so the hasher,
      which feeds the digest piecewise, computes the one-shot digest of
      the concatenation; the output lengths; the invariant of the state
      ([state_wf], [absorbs]): the chaining value is eight words below
      [2^64] after any compression, the counter is a multiple of the
      block length, the pending block is the end of the message not yet
      compressed, and the state inside any hasher satisfies it; the
      known answers of the RFC and the addresses of a fixed key by
      computation (checks of the model, not properties).

    Where a security property needs the digest to be collision-free, the
    theorem is a reduction: it exhibits two different byte strings with
    the same digest.  No theorem assumes that a digest is injective.

    ** Bounds

    [u64] and [u8] values are [Z] with the range stated where it matters:
    the tag's length prefix is [le_split 8], exact below [2^64]; amounts
    are [i64] ([i64_range]); CBOR arguments are below [2^64]; the words
    of Blake2b are reduced modulo [2^64] after every addition, and
    [F_range] proves that they stay below [2^64].  Fuel is used twice.
    In [write_all] a round takes at least one byte, so the length of the
    buffer is enough fuel for every writer ([write_all_fuel_enough]:
    more fuel changes nothing); for the writer of the hashers one round
    is enough ([write_all_fuel_total]).  In the one-shot Blake2b
    ([blocks_fuel]) a round takes 128 bytes, so the length of the input
    is enough, and [update_blocks] proves it equal to the streaming
    state, which is a fold.  Every other loop of the program is a
    bounded fold over a list.

    ** Not modelled

    The elliptic-curve arithmetic (tari_crypto) and the encoder serde
    derives for instructions (tari_bor) are consumed through interfaces
    with laws; keyed, salted and personalised Blake2b are absent, since
    the program does not use them; the JavaScript
    binding layer (wasm_bindgen, serde_wasm_bindgen) is three conversions
    that may fail.  The modules lib.rs declares and does not use
    (argument_parser, fee_claim, serde_with, template) are absent. *)

From Stdlib Require Import ZArith List String Ascii Lia.
From Stdlib Require Strings.Byte.
From stdpp Require Import base decidable option list strings.
From coqutil Require Import Byte Word.LittleEndianList.

(** ** Bytes *)

#[global] Instance byte_eq_dec : EqDecision byte := Byte.byte_eq_dec.

(** The bytes of an ASCII string ([str::as_bytes]). *)
Definition str_bytes (s : string) : list byte := list_byte_of_string s.

(** [u64::to_le_bytes] of a length. *)
Definition u64_le_bytes (n : nat) : list byte := le_split 8 (Z.of_nat n).

(** ** Failure

    The error taxonomy of the specification, and the two ways an operation
    can fail in the code: [Err] is a [Result::Err] returned to the caller,
    [Panic] an [expect] or [unwrap] on a failed result. *)

Inductive Fault : Type :=
  | MalformedInput
  | BuilderMisuse
  | EncodingFault
  | SigningFailure
  | InvalidSignature.

#[global] Instance Fault_eq_dec : EqDecision Fault.
Proof. solve_decision. Defined.

Inductive outcome (A : Type) : Type :=
  | Ok (a : A)
  | Err (f : Fault)
  | Panic (f : Fault).

Arguments Ok {A} a.
Arguments Err {A} f.
Arguments Panic {A} f.

#[global] Instance outcome_eq_dec `{EqDecision A} : EqDecision (outcome A).
Proof. solve_decision. Defined.

(** The [?] operator and sequencing: the first failure is the result. *)
Definition obind {A B : Type} (m : outcome A) (k : A -> outcome B) : outcome B :=
  match m with
  | Ok a => k a
  | Err f => Err f
  | Panic f => Panic f
  end.

Definition omap {A B : Type} (g : A -> B) (m : outcome A) : outcome B :=
  obind m (fun a => Ok (g a)).

(** [Option::ok_or(f)?]: a missing value is the returned error [f]. *)
Definition ok_or {A : Type} (f : Fault) (o : option A) : outcome A :=
  match o with Some a => Ok a | None => Err f end.

(** [Result::expect] / [unwrap]: a missing value is a panic. *)
Definition expect {A : Type} (f : Fault) (o : option A) : outcome A :=
  match o with Some a => Ok a | None => Panic f end.

Definition is_ok {A : Type} (m : outcome A) : bool :=
  match m with Ok _ => true | _ => false end.

Definition is_panic {A : Type} (m : outcome A) : bool :=
  match m with Panic _ => true | _ => false end.

(** The faults of an outcome are among the errors [errs] when returned
    and among [panics] when panicked. *)
Definition faults_in {A : Type} (m : outcome A) (errs panics : list Fault) : Prop :=
  match m with
  | Ok _ => True
  | Err f => In f errs
  | Panic f => In f panics
  end.

Declare Scope outcome_scope.
Delimit Scope outcome_scope with outcome.

Notation "'let?' x ':=' e 'in' k" := (obind e (fun x => k))
  (at level 10, x name, e at level 100, k at level 200) : outcome_scope.

(** ** Hexadecimal strings ([tari_utilities::hex], [Hash::from_hex]) *)

Definition hex_digit (n : N) : ascii :=
  match n with
  | 0 => "0" | 1 => "1" | 2 => "2" | 3 => "3" | 4 => "4" | 5 => "5"
  | 6 => "6" | 7 => "7" | 8 => "8" | 9 => "9" | 10 => "a" | 11 => "b"
  | 12 => "c" | 13 => "d" | 14 => "e" | _ => "f"
  end%N%char.

Definition hex_value (c : ascii) : option N :=
  let n := N_of_ascii c in
  if ((48 <=? n) && (n <=? 57))%N then Some (n - 48)%N
  else if ((97 <=? n) && (n <=? 102))%N then Some (n - 87)%N
  else if ((65 <=? n) && (n <=? 70))%N then Some (n - 55)%N
  else None.

Definition byte_to_hex (b : byte) : string :=
  let n := Byte.to_N b in
  String (hex_digit (n / 16)) (String (hex_digit (n mod 16)) EmptyString).

Fixpoint to_hex (l : list byte) : string :=
  match l with
  | [] => EmptyString
  | b :: r => byte_to_hex b +:+ to_hex r
  end.

Fixpoint from_hex (s : string) : option (list byte) :=
  match s with
  | EmptyString => Some []
  | String _ EmptyString => None
  | String hi (String lo r) =>
      match hex_value hi, hex_value lo, from_hex r with
      | Some h, Some l, Some bs => Some (byte.of_Z (Z.of_N (16 * h + l)) :: bs)
      | _, _, _ => None
      end
  end.

(** ** Tactics and hint databases *)

Create HintDb tari discriminated.
Create Rewrite HintDb tari_rw.

(** Case analysis on the outcomes a goal or hypothesis matches on. *)
Ltac outcome_cases :=
  repeat match goal with
  | H : obind ?m _ = _ |- _ => destruct m eqn:?; simpl in H
  | H : Ok _ = Ok _ |- _ => injection H as H; subst
  | H : Ok _ = Err _ |- _ => discriminate H
  | H : Ok _ = Panic _ |- _ => discriminate H
  | H : Err _ = Ok _ |- _ => discriminate H
  | H : Panic _ = Ok _ |- _ => discriminate H
  | H : Err _ = Panic _ |- _ => discriminate H
  | H : Panic _ = Err _ |- _ => discriminate H
  end.

(** ** Lemmas: outcomes *)

Section Outcome.
Context {A B C : Type}.
Implicit Types (m : outcome A) (k : A -> outcome B).

Lemma obind_ok a k : obind (Ok a) k = k a.
Proof. reflexivity. Qed.

Lemma obind_ok_inv m k b :
  obind m k = Ok b -> exists a, m = Ok a /\ k a = Ok b.
Proof. destruct m; simpl; intros H; try discriminate; eauto. Qed.

Lemma obind_assoc m k (j : B -> outcome C) :
  obind (obind m k) j = obind m (fun a => obind (k a) j).
Proof. destruct m; reflexivity. Qed.

Lemma obind_ret m : obind m Ok = m.
Proof. destruct m; reflexivity. Qed.

Lemma is_ok_true m : is_ok m = true <-> exists a, m = Ok a.
Proof.
  destruct m; simpl; split; try discriminate; eauto; intros [a H]; discriminate.
Qed.

Lemma expect_never_err f (o : option A) e : expect f o <> Err e.
Proof. destruct o; discriminate. Qed.

Lemma ok_or_never_panics f (o : option A) e : ok_or f o <> Panic e.
Proof. destruct o; discriminate. Qed.

Lemma expect_ok_inv f (o : option A) a : expect f o = Ok a -> o = Some a.
Proof. destruct o; simpl; congruence. Qed.

Lemma ok_or_ok_inv f (o : option A) a : ok_or f o = Ok a -> o = Some a.
Proof. destruct o; simpl; congruence. Qed.

Lemma faults_in_ok (a : A) E P : faults_in (Ok a) E P.
Proof. exact I. Qed.

Lemma faults_in_bind m k E P :
  faults_in m E P -> (forall a, m = Ok a -> faults_in (k a) E P) ->
  faults_in (obind m k) E P.
Proof. destruct m; simpl; auto. Qed.

Lemma faults_in_ok_or f (o : option A) E P : In f E -> faults_in (ok_or f o) E P.
Proof. now destruct o. Qed.

Lemma faults_in_expect f (o : option A) E P : In f P -> faults_in (expect f o) E P.
Proof. now destruct o. Qed.

Lemma faults_in_err m E P f : faults_in m E P -> m = Err f -> In f E.
Proof. now intros H ->. Qed.

Lemma faults_in_panic m E P f : faults_in m E P -> m = Panic f -> In f P.
Proof. now intros H ->. Qed.

End Outcome.

#[export] Hint Rewrite @obind_ok @obind_assoc @obind_ret : tari_rw.
#[export] Hint Resolve faults_in_ok faults_in_ok_or faults_in_expect : tari.
#[export] Hint Extern 2 (In _ (_ :: _)) => simpl; auto 6 : tari.

(** Faults through a pipeline: a part with a known lemma, or one [obind]
    after the other. *)
Ltac faults_in_pipeline :=
  repeat first
    [ solve [auto with tari]
    | apply faults_in_bind; [| intros ? _]
    | match goal with |- faults_in (if ?b then _ else _) _ _ => destruct b end ].

(** ** Lemmas: bytes and lists *)

Lemma str_bytes_length s : length (str_bytes s) = String.length s.
Proof. unfold str_bytes, list_byte_of_string. induction s; simpl; congruence. Qed.

Lemma str_bytes_app s t : str_bytes (s +:+ t) = str_bytes s ++ str_bytes t.
Proof.
  unfold str_bytes, list_byte_of_string.
  induction s as [|a s IH]; simpl; [reflexivity | now rewrite IH].
Qed.

Lemma str_bytes_inj s t : str_bytes s = str_bytes t -> s = t.
Proof.
  intros H. apply (f_equal string_of_list_byte) in H.
  unfold str_bytes in H. now rewrite !string_of_list_byte_of_string in H.
Qed.

Lemma u64_le_bytes_length n : length (u64_le_bytes n) = 8.
Proof. apply length_le_split. Qed.

(** Below [2^64] the little-endian prefix determines the length. *)
Lemma u64_le_bytes_inj n m :
  (Z.of_nat n < 2 ^ 64)%Z -> (Z.of_nat m < 2 ^ 64)%Z ->
  u64_le_bytes n = u64_le_bytes m -> n = m.
Proof.
  intros Hn Hm H. apply (f_equal le_combine) in H.
  unfold u64_le_bytes in H. rewrite !le_combine_split in H.
  rewrite !Z.mod_small in H by (simpl; lia). lia.
Qed.

(** Two lists that agree after a prefix of equal length agree on both parts. *)
Lemma app_eq_len {T : Type} (a b x y : list T) :
  length a = length b -> a ++ x = b ++ y -> a = b /\ x = y.
Proof. apply app_inj_1. Qed.

(** A property every step of a left fold preserves holds of its result. *)
Lemma fold_left_preserves {A B : Type} (P : A -> Prop) (f : A -> B -> A) l a :
  (forall a b, P a -> P (f a b)) -> P a -> P (fold_left f l a).
Proof.
  intros Hf. revert a. induction l as [|b l IH]; intros a Ha; cbn [fold_left]; auto.
Qed.

(** ** Lemmas: hexadecimal *)

Lemma hex_value_digit n : (n < 16)%N -> hex_value (hex_digit n) = Some n.
Proof.
  intros H. destruct n as [|p]; [reflexivity|].
  do 4 (try (destruct p as [p|p|]; try reflexivity)); lia.
Qed.

Lemma byte_to_hex_length b : String.length (byte_to_hex b) = 2.
Proof. reflexivity. Qed.

Lemma to_hex_length l : String.length (to_hex l) = 2 * length l.
Proof.
  induction l as [|b l IH]; [reflexivity|].
  cbn [to_hex]. rewrite String.app_length, IH, byte_to_hex_length. simpl. lia.
Qed.

Lemma from_hex_byte b r :
  from_hex (byte_to_hex b +:+ r) = option_map (cons b) (from_hex r).
Proof.
  unfold byte_to_hex. simpl.
  pose proof (Byte.to_N_bounded b) as Hb.
  rewrite !hex_value_digit.
  - replace (16 * (Byte.to_N b / 16) + Byte.to_N b mod 16)%N with (Byte.to_N b)
      by (rewrite (N.div_mod' (Byte.to_N b) 16) at 1; reflexivity).
    change (Z.of_N (Byte.to_N b)) with (byte.unsigned b).
    rewrite byte.of_Z_unsigned. change (EmptyString +:+ r) with r.
    now destruct (from_hex r).
  - apply N.mod_lt. discriminate.
  - apply N.Div0.div_lt_upper_bound. lia.
Qed.

Lemma from_hex_to_hex l : from_hex (to_hex l) = Some l.
Proof.
  induction l as [|b l IH]; [reflexivity|].
  cbn [to_hex]. now rewrite from_hex_byte, IH.
Qed.

Lemma from_hex_length_aux n : forall s l,
  String.length s < n -> from_hex s = Some l -> String.length s = 2 * length l.
Proof.
  induction n as [|n IH]; intros s l Hn H; [lia|].
  destruct s as [|a [|b r]]; simpl in H.
  - injection H as <-. reflexivity.
  - discriminate.
  - destruct (hex_value a), (hex_value b), (from_hex r) as [bs|] eqn:Hr;
      try discriminate.
    injection H as <-. simpl in *. rewrite (IH r bs); [lia | lia | assumption].
Qed.

Lemma from_hex_length s l :
  from_hex s = Some l -> String.length s = 2 * length l.
Proof. apply (from_hex_length_aux (S (String.length s))). lia. Qed.

Lemma to_hex_inj l k : to_hex l = to_hex k -> l = k.
Proof.
  intros H. apply (f_equal from_hex) in H. rewrite !from_hex_to_hex in H. congruence.
Qed.
