(* ===== verification/Labels.v ===== *)
(** * Labels: the domain label registry and the domain separation tag

    [EngineHashDomainLabel] and [as_label] are the enum and the method of
    hashing.rs; [TariEngineHashDomain] and [ConfidentialOutputHashDomain]
    are its two [hash_domain!] declarations.  The tag a hasher absorbs
    first ([DomainSeparation::add_domain_separation_tag] of tari_crypto) is
    the little-endian 64-bit length of ["<domain>.v<version>.<label>"]
    followed by that text ([domain_separation_tag]).

    The theorems: the registry's tags are pairwise distinct and non-empty;
    the tag's length prefix is exact; under the engine domain the tag is
    prefix-free in the label; the two declared domains never produce the
    same tag. *)

From Stdlib Require Import ZArith List String Ascii Lia.
From stdpp Require Import base decidable list strings finite.
From coqutil Require Import Byte Word.LittleEndianList.
From S2P Require Import Prelude.

(** ** The registry *)

Inductive EngineHashDomainLabel : Type :=
  | Template
  | ShardId
  | ConfidentialProof
  | ConfidentialTransfer
  | ShardPledgeCollection
  | HotStuffTreeNode
  | Transaction
  | NonFungibleId
  | NonFungibleIndex
  | UuidOutput
  | Output
  | TransactionSignature
  | ResourceAddress
  | ComponentAddress
  | RandomBytes
  | TransactionReceipt
  | FeeClaimAddress
  | QuorumCertificate.

Definition as_label (l : EngineHashDomainLabel) : string :=
  match l with
  | Template => "Template"
  | ShardId => "ShardId"
  | ConfidentialProof => "ConfidentialProof"
  | ConfidentialTransfer => "ConfidentialTransfer"
  | ShardPledgeCollection => "ShardPledgeCollection"
  | HotStuffTreeNode => "HotStuffTreeNode"
  | Transaction => "Transaction"
  | NonFungibleId => "NonFungibleId"
  | NonFungibleIndex => "NonFungibleIndex"
  | UuidOutput => "UuidOutput"
  | Output => "Output"
  | TransactionSignature => "TransactionSignature"
  | ResourceAddress => "ResourceAddress"
  | ComponentAddress => "ComponentAddress"
  | RandomBytes => "RandomBytes"
  | TransactionReceipt => "TransactionReceipt"
  | FeeClaimAddress => "FeeClaimAddress"
  | QuorumCertificate => "QuorumCertificate"
  end.

#[global] Instance EngineHashDomainLabel_eq_dec : EqDecision EngineHashDomainLabel.
Proof. solve_decision. Defined.

Definition all_labels : list EngineHashDomainLabel :=
  [ Template; ShardId; ConfidentialProof; ConfidentialTransfer;
    ShardPledgeCollection; HotStuffTreeNode; Transaction; NonFungibleId;
    NonFungibleIndex; UuidOutput; Output; TransactionSignature;
    ResourceAddress; ComponentAddress; RandomBytes; TransactionReceipt;
    FeeClaimAddress; QuorumCertificate ].

#[global, program] Instance EngineHashDomainLabel_finite :
  Finite EngineHashDomainLabel := {| enum := all_labels |}.
Next Obligation. apply (bool_decide_unpack _). vm_compute. exact I. Qed.
Next Obligation. intros []; apply (bool_decide_unpack _); vm_compute; exact I. Qed.

(** The inverse of [as_label] on the registry's tags. *)
Definition label_of_tag (s : string) : option EngineHashDomainLabel :=
  list_find (fun l => as_label l = s) all_labels ≫= (fun p => Some p.2).

(** ** Hash domains *)

(** What [hash_domain!(Name, domain, version)] declares: a type whose
    [DomainSeparation] instance answers [domain()] and [version()]
    (a [u8]). *)
Record HashDomain : Type := {
  domain : string;
  version : Z
}.

Definition TariEngineHashDomain : HashDomain :=
  {| domain := "com.tari.dan.engine"; version := 0 |}.

Definition ConfidentialOutputHashDomain : HashDomain :=
  {| domain := "com.tari.dan.confidential_output"; version := 1 |}.

(** A [u8] version. *)
Definition version_ok (D : HashDomain) : Prop := (0 <= version D < 256)%Z.

(** ** The domain separation tag *)

Definition digit_byte (d : Z) : byte := byte.of_Z (48 + d).

(** The decimal digits of a [u8] with no leading zero
    ([byte_to_decimal_ascii_bytes], the slice from its offset). *)
Definition byte_to_decimal_ascii_bytes (v : Z) : list byte :=
  if (v <? 10)%Z then [digit_byte v]
  else if (v <? 100)%Z then [digit_byte (v / 10); digit_byte (v mod 10)]
  else [digit_byte (v / 100); digit_byte (v / 10 mod 10); digit_byte (v mod 10)].

(** The length the tag announces: the arithmetic of
    [add_domain_separation_tag], [3 - version_offset] being the number of
    digits. *)
Definition tag_len (D : HashDomain) (label : string) : nat :=
  if decide (label = EmptyString)
  then String.length (domain D) + length (byte_to_decimal_ascii_bytes (version D)) + 2
  else String.length (domain D) + length (byte_to_decimal_ascii_bytes (version D))
       + String.length label + 3.

(** The updates [add_domain_separation_tag] makes, in order. *)
Definition tag_updates (D : HashDomain) (label : string) : list (list byte) :=
  [ u64_le_bytes (tag_len D label);
    str_bytes (domain D);
    str_bytes ".v";
    byte_to_decimal_ascii_bytes (version D) ]
  ++ (if decide (label = EmptyString) then []
      else [ str_bytes "."; str_bytes label ]).

(** The bytes after the length prefix. *)
Definition tag_body (D : HashDomain) (label : string) : list byte :=
  concat (tail (tag_updates D label)).

(** The whole tag as one byte string. *)
Definition domain_separation_tag (D : HashDomain) (label : string) : list byte :=
  concat (tag_updates D label).

(** ** The registry's tags *)

(** C10: no two variants of the registry share a tag: two labels have
    the same tag exactly when they are the same label. *)
Theorem as_label_inj (l1 l2 : EngineHashDomainLabel) :
  as_label l1 = as_label l2 <-> l1 = l2.
Proof.
  split; [|now intros ->].
  destruct l1, l2; simpl; intros H; first [reflexivity | discriminate H].
Qed.

#[global] Instance as_label_Inj : Inj (=) (=) as_label.
Proof.
  intros l1 l2. destruct l1, l2; simpl; intros H; first [reflexivity | discriminate H].
Qed.

Lemma as_label_nonempty_aux l : as_label l <> EmptyString.
Proof. destruct l; discriminate. Qed.

Lemma as_label_length l : 6 <= String.length (as_label l) <= 21.
Proof. destruct l; simpl; lia. Qed.

Lemma label_of_tag_as_label l : label_of_tag (as_label l) = Some l.
Proof. destruct l; reflexivity. Qed.

(** The tags are recognised: [label_of_tag] inverts [as_label], and
    answers [None] exactly on the strings that are no tag. *)
Lemma label_of_tag_spec (s : string) (l : EngineHashDomainLabel) :
  label_of_tag s = Some l <-> as_label l = s.
Proof.
  split.
  - unfold label_of_tag. intros H.
    destruct (list_find _ _) as [[i l']|] eqn:Hf; simpl in H; [|discriminate].
    injection H as <-. apply list_find_Some in Hf. tauto.
  - intros <-. apply label_of_tag_as_label.
Qed.

(** The registry has no label for instruction signatures.
    signature.rs hashes under [EngineHashDomainLabel::InstructionSignature];
    no variant of the registry has this name or this tag, while
    [TransactionSignature] is registered. *)
Example instruction_signature_unregistered :
  label_of_tag "InstructionSignature" = None
  /\ label_of_tag "TransactionSignature" = Some TransactionSignature
  /\ existsb (fun l => String.eqb (as_label l) "InstructionSignature") all_labels
     = false.
Proof. repeat split; reflexivity. Qed.

(** ** The tag *)

Lemma digits_length v : 1 <= length (byte_to_decimal_ascii_bytes v) <= 3.
Proof.
  unfold byte_to_decimal_ascii_bytes.
  destruct (v <? 10)%Z, (v <? 100)%Z; simpl; lia.
Qed.

Lemma tag_body_length D label : length (tag_body D label) = tag_len D label.
Proof.
  unfold tag_body, tag_updates, tag_len.
  destruct (decide (label = EmptyString)); simpl;
    repeat (rewrite ?length_app, ?str_bytes_length; simpl); lia.
Qed.

Lemma tag_split D label :
  domain_separation_tag D label
  = u64_le_bytes (length (tag_body D label)) ++ tag_body D label.
Proof. rewrite tag_body_length. reflexivity. Qed.

Lemma tag_body_nonempty_label D label :
  label <> EmptyString ->
  tag_body D label
  = str_bytes (domain D) ++ str_bytes ".v"
    ++ byte_to_decimal_ascii_bytes (version D) ++ str_bytes "." ++ str_bytes label.
Proof.
  intros H. unfold tag_body, tag_updates.
  destruct (decide (label = EmptyString)); [contradiction|].
  simpl. now rewrite app_nil_r.
Qed.

Lemma tag_length D label :
  length (domain_separation_tag D label) = 8 + tag_len D label.
Proof. rewrite tag_split, length_app, u64_le_bytes_length, tag_body_length. reflexivity. Qed.

(** Two tags of announced length below [2^64] that start the same stream
    have the same body, and the streams continue the same way. *)
Lemma tag_prefix_free D1 D2 l1 l2 x y :
  (Z.of_nat (tag_len D1 l1) < 2 ^ 64)%Z -> (Z.of_nat (tag_len D2 l2) < 2 ^ 64)%Z ->
  domain_separation_tag D1 l1 ++ x = domain_separation_tag D2 l2 ++ y ->
  tag_body D1 l1 = tag_body D2 l2 /\ x = y.
Proof.
  intros H1 H2. rewrite !tag_split, !tag_body_length, <- !app_assoc. intros H.
  apply app_eq_len in H as [Hlen H]; [|now rewrite !u64_le_bytes_length].
  apply u64_le_bytes_inj in Hlen; [|assumption..].
  apply app_eq_len in H; [assumption|]. now rewrite !tag_body_length.
Qed.

Lemma registry_tag_len_small D l :
  String.length (domain D) < 1000 -> (Z.of_nat (tag_len D (as_label l)) < 2 ^ 64)%Z.
Proof.
  intros HD. unfold tag_len. pose proof (digits_length (version D)).
  pose proof (as_label_length l). destruct (decide _); simpl; lia.
Qed.

(** Two byte streams that begin with the engine tags of two registry
    labels and are equal come from the same label and continue with the
    same bytes. *)
Lemma engine_tag_app_inv (l1 l2 : EngineHashDomainLabel) (x y : list byte) :
  domain_separation_tag TariEngineHashDomain (as_label l1) ++ x
  = domain_separation_tag TariEngineHashDomain (as_label l2) ++ y ->
  l1 = l2 /\ x = y.
Proof.
  intros H.
  apply tag_prefix_free in H as [Hb ->];
    [|apply registry_tag_len_small; simpl; lia..].
  split; [|reflexivity].
  rewrite !tag_body_nonempty_label in Hb by apply as_label_nonempty_aux.
  do 4 apply app_inv_head in Hb.
  now apply (inj as_label), str_bytes_inj.
Qed.

(** C17: domain separation at the level of bytes.  Under the engine's hash
    domain, hashers of two different registry labels never absorb the
    same stream, whatever is chained after the tags. *)
Theorem engine_tag_separation (l1 l2 : EngineHashDomainLabel) (x y : list byte) :
  l1 <> l2 ->
  domain_separation_tag TariEngineHashDomain (as_label l1) ++ x
  <> domain_separation_tag TariEngineHashDomain (as_label l2) ++ y.
Proof. intros Hne H. now apply engine_tag_app_inv in H as [? _]. Qed.

Lemma engine_tag_separation_witness :
  domain_separation_tag TariEngineHashDomain (as_label Template) ++ [Byte.x01]
  <> domain_separation_tag TariEngineHashDomain (as_label Output) ++ [Byte.x01].
Proof. apply (engine_tag_separation Template Output). discriminate. Defined.

(** C37: the two hash domains the program declares are separated whatever
    the labels, as long as a label is shorter than [2^32] bytes (so that
    the length prefix of the tag is exact): a stream that starts with an
    engine tag never equals one that starts with a confidential-output
    tag. *)
Theorem declared_domains_separated (s1 s2 : string) (x y : list byte) :
  (Z.of_nat (String.length s1) < 2 ^ 32)%Z ->
  (Z.of_nat (String.length s2) < 2 ^ 32)%Z ->
  domain_separation_tag TariEngineHashDomain s1 ++ x
  <> domain_separation_tag ConfidentialOutputHashDomain s2 ++ y.
Proof.
  intros H1 H2 H.
  apply tag_prefix_free in H as [Hb _].
  - unfold tag_body, tag_updates in Hb. simpl in Hb. discriminate Hb.
  - unfold tag_len. destruct (decide _); simpl; lia.
  - unfold tag_len. destruct (decide _); simpl; lia.
Qed.

Lemma declared_domains_separated_witness :
  domain_separation_tag TariEngineHashDomain "Output" ++ []
  <> domain_separation_tag ConfidentialOutputHashDomain "Output" ++ [].
Proof.
  apply (declared_domains_separated "Output" "Output" [] []); simpl; lia.
Defined.
