(* ===== verification/Digest.v ===== *)
(** * Digest: the interfaces the hashers consume

    hashing.rs is written against three capabilities it does not define:

    - [Digest n], the streaming hash [Blake2b<U32>] / [Blake2b<U64>]
      ([new], [update], [finalize]), with the one law the hashers rely on:
      the state after a sequence of updates depends only on the
      concatenation of the bytes fed;
    - [Write], the sink an encoder writes to ([std::io::Write]), with its
      provided method [write_all];
    - [Serialize], the canonical encoder ([tari_bor::encode_into]): the
      chunks it writes for a value, or a failure.

    The clients' theorems (files [Hasher], [Component], [Signature]) are
    proved against these interfaces.  The instances at the end compute and
    are used by the witnesses. *)

From Stdlib Require Import ZArith List Lia.
From stdpp Require Import base decidable option list.
From coqutil Require Import Byte Word.LittleEndianList.
From S2P Require Import Prelude.

(** ** Streaming digests *)

Class Digest (outlen : nat) : Type := {
  digest_state : Type;
  digest_new : digest_state;
  digest_update : digest_state -> list byte -> digest_state;
  digest_finalize : digest_state -> list byte;
  digest_update_nil : forall s, digest_update s [] = s;
  digest_update_app : forall s a b,
    digest_update (digest_update s a) b = digest_update s (a ++ b);
  digest_finalize_length : forall s, length (digest_finalize s) = outlen
}.

Arguments digest_state {outlen} _.

Section DigestDefs.
Context {n : nat} {D : Digest n}.

(** The one-shot hash of a message. *)
Definition digest_hash (m : list byte) : list byte :=
  digest_finalize (digest_update digest_new m).

(** The state [s] has absorbed exactly the bytes [m]. *)
Definition absorbed (s : digest_state D) (m : list byte) : Prop :=
  s = digest_update digest_new m.

(** Two different messages with the same digest. *)
Definition Collision (m1 m2 : list byte) : Prop :=
  m1 <> m2 /\ digest_hash m1 = digest_hash m2.

End DigestDefs.

(** ** Writers *)

(** [std::io::Write]: [write] reports how many bytes it took or fails,
    [flush] succeeds or fails. *)
Record Write (W : Type) : Type := {
  write : W -> list byte -> W * option nat;
  flush : W -> W * option unit
}.

Arguments write {W} _ _ _.
Arguments flush {W} _ _.

Section WriteAll.
Context {W : Type} (wr : Write W).

(** [Write::write_all]: write until the buffer is empty; a write of zero
    bytes is the error [WriteZero].  Every round takes at least one byte,
    so [length buf] rounds are enough ([write_all_fuel_enough]).  A
    writer that reports more bytes than it was given breaks the contract
    of [Write] (the standard library panics on the slice); here the
    buffer is then empty.  The writer of the hashers reports the length
    of the buffer. *)
Fixpoint write_all_fuel (fuel : nat) (w : W) (buf : list byte) : W * option unit :=
  match buf, fuel with
  | [], _ => (w, Some tt)
  | _, 0 => (w, None)
  | _, S fuel' =>
      match write wr w buf with
      | (w', Some 0) => (w', None)
      | (w', Some k) => write_all_fuel fuel' w' (drop k buf)
      | (w', None) => (w', None)
      end
  end.

Definition write_all (w : W) (buf : list byte) : W * option unit :=
  write_all_fuel (length buf) w buf.

(** The encoder's writes, chunk after chunk, up to the first failure. *)
Fixpoint write_chunks (w : W) (chunks : list (list byte)) : W * option unit :=
  match chunks with
  | [] => (w, Some tt)
  | c :: cs =>
      match write_all w c with
      | (w', Some _) => write_chunks w' cs
      | (w', None) => (w', None)
      end
  end.

End WriteAll.

(** ** The canonical encoder *)

(** [T: Serialize]: the chunks the encoder writes for a value, [None]
    when it rejects the value. *)
Class Serialize (T : Type) : Type := {
  serialize : T -> option (list (list byte))
}.

(** The bytes of a value's encoding. *)
Definition encoding {T : Type} `{Serialize T} (x : T) : option (list byte) :=
  (fun cs => concat cs) <$> serialize x.

(** [tari_bor::encode_into(data, writer)]. *)
Definition encode_into {T W : Type} `{Serialize T} (wr : Write W) (data : T) (w : W)
  : W * option unit :=
  match serialize data with
  | None => (w, None)
  | Some chunks =>
      match write_chunks wr w chunks with
      | (w', Some _) => flush wr w'
      | (w', None) => (w', None)
      end
  end.

(** The encoder accepts the value. *)
Definition encodable {T : Type} `{Serialize T} (x : T) : Prop :=
  is_Some (encoding x).

(** An encoder is canonical on [T] when no encoding is a proper prefix
    of, or equal to, the encoding of another value: concatenated
    encodings parse in one way only. *)
Class Canonical (T : Type) `{Serialize T} : Prop := {
  canonical_prefix_free : forall (x y : T) ex ey r s,
    encoding x = Some ex -> encoding y = Some ey ->
    ex ++ r = ey ++ s -> x = y
}.

(** ** Reference instances *)

(** A digest that keeps the message and answers a window of it: enough to
    run the hashers on concrete inputs, and lawful.  It is no instance for
    resolution: a client names it. *)
Definition window (n : nat) (m : list byte) : list byte :=
  take n (rev m ++ replicate n Byte.x00).

Definition WindowDigest (n : nat) : Digest n.
Proof.
  refine {| digest_state := list byte;
            digest_new := [];
            digest_update s b := s ++ b;
            digest_finalize := window n |}.
  - intros s. apply app_nil_r.
  - intros s a b. symmetry. apply app_assoc.
  - intros s. unfold window.
    rewrite length_take, length_app, length_replicate. lia.
Defined.

(** A digest that only counts the bytes it is fed: lawful, and any two
    messages of the same length collide.  It makes the collision branch
    of a reduction reachable from inputs that differ. *)
Definition CountDigest (n : nat) : Digest n.
Proof.
  refine {| digest_state := nat;
            digest_new := 0;
            digest_update s b := s + length b;
            digest_finalize s := le_split n (Z.of_nat s) |}.
  - intros s. simpl. lia.
  - intros s a b. rewrite length_app. lia.
  - intros s. apply length_le_split.
Defined.

(** A writer that appends to a buffer and takes at most [k] bytes a call
    (a short-writing sink, for exercising [write_all]). *)
Definition ShortWriter (k : nat) : Write (list byte) := {|
  write w buf := (w ++ take k buf, Some (length (take k buf)));
  flush w := (w, Some tt)
|}.

(** ** Lemmas: digests *)

Section DigestLemmas.
Context {n : nat} {D : Digest n}.
Implicit Types (s : digest_state D) (m a b : list byte).

Lemma absorbed_new : absorbed digest_new [].
Proof. unfold absorbed. now rewrite digest_update_nil. Qed.

Lemma absorbed_update s m b :
  absorbed s m -> absorbed (digest_update s b) (m ++ b).
Proof. unfold absorbed. intros ->. apply digest_update_app. Qed.

Lemma absorbed_finalize s m : absorbed s m -> digest_finalize s = digest_hash m.
Proof. unfold absorbed, digest_hash. now intros ->. Qed.

Lemma absorbed_fold s m (cs : list (list byte)) :
  absorbed s m -> absorbed (fold_left digest_update cs s) (m ++ concat cs).
Proof.
  revert s m. induction cs as [|c cs IH]; intros s m Hs; simpl.
  - now rewrite app_nil_r.
  - rewrite app_assoc. now apply IH, absorbed_update.
Qed.

Lemma digest_hash_length m : length (digest_hash m) = n.
Proof. apply digest_finalize_length. Qed.

(** Equal digests of two messages: the messages are equal or collide. *)
Lemma digest_hash_eq_cases `{EqDecision (list byte)} m1 m2 :
  digest_hash m1 = digest_hash m2 -> m1 = m2 \/ Collision m1 m2.
Proof.
  intros H. destruct (decide (m1 = m2)); [now left | right; now split].
Qed.

End DigestLemmas.

#[export] Hint Resolve absorbed_new absorbed_update absorbed_fold : tari.

(** ** Lemmas: writers *)

Section WriterLemmas.
Context {W : Type} (wr : Write W).

Lemma write_all_nil w : write_all wr w [] = (w, Some tt).
Proof. reflexivity. Qed.

(** Termination of [write_all], for every writer: once the fuel covers
    the buffer, more fuel changes nothing; the loop has ended. *)
Lemma write_all_fuel_irrelevant fuel1 fuel2 w buf :
  length buf <= fuel1 -> length buf <= fuel2 ->
  write_all_fuel wr fuel1 w buf = write_all_fuel wr fuel2 w buf.
Proof.
  revert fuel2 w buf. induction fuel1 as [|fuel1 IH]; intros fuel2 w buf H1 H2;
    destruct buf as [|b buf]; try (now destruct fuel2); try (simpl in H1; lia).
  destruct fuel2 as [|fuel2]; [simpl in H2; lia|].
  cbn [write_all_fuel]. destruct (write wr w (b :: buf)) as [w' [[|k]|]]; try reflexivity.
  apply IH; rewrite length_drop; simpl in *; lia.
Qed.

Lemma write_all_fuel_enough fuel w buf :
  length buf <= fuel -> write_all_fuel wr fuel w buf = write_all wr w buf.
Proof. intros H. now apply write_all_fuel_irrelevant. Qed.

(** A writer that takes the whole buffer in one call: [write_all] is one
    call of it. *)
Section Total.
Context (upd : W -> list byte -> W).
Hypothesis write_total : forall w buf, write wr w buf = (upd w buf, Some (length buf)).
Hypothesis flush_noop : forall w, flush wr w = (w, Some tt).
Hypothesis upd_nil : forall w, upd w [] = w.

(** One round is enough for such a writer. *)
Lemma write_all_fuel_total fuel w buf :
  Nat.min 1 (length buf) <= fuel ->
  write_all_fuel wr fuel w buf = (upd w buf, Some tt).
Proof.
  destruct buf as [|b buf]; [intros _; destruct fuel; cbn; now rewrite upd_nil|].
  destruct fuel as [|fuel]; [simpl; lia | intros _].
  cbn [write_all_fuel]. rewrite write_total.
  cbn [length drop]. rewrite drop_all. now destruct fuel.
Qed.

Lemma write_all_total w buf : write_all wr w buf = (upd w buf, Some tt).
Proof. apply write_all_fuel_total. destruct buf; simpl; lia. Qed.

Lemma write_chunks_total w cs :
  write_chunks wr w cs = (fold_left upd cs w, Some tt).
Proof.
  revert w. induction cs as [|c cs IH]; intros w; [reflexivity|].
  cbn [write_chunks fold_left]. now rewrite write_all_total, IH.
Qed.

Lemma encode_into_total {T : Type} `{Serialize T} (data : T) w :
  encode_into wr data w
  = match serialize data with
    | Some cs => (fold_left upd cs w, Some tt)
    | None => (w, None)
    end.
Proof.
  unfold encode_into. destruct (serialize data) as [cs|]; [|reflexivity].
  now rewrite write_chunks_total, flush_noop.
Qed.

End Total.

End WriterLemmas.

(** [write_all] on a writer that takes at most [k >= 1] bytes a call:
    the fuel [length buf] is enough, and every byte arrives in order. *)
Lemma write_all_fuel_short k fuel w buf :
  0 < k -> length buf <= fuel ->
  write_all_fuel (ShortWriter k) fuel w buf = (w ++ buf, Some tt).
Proof.
  intros Hk. revert w buf. induction fuel as [|fuel IH]; intros w buf Hf.
  - destruct buf; [now rewrite app_nil_r | simpl in Hf; lia].
  - destruct buf as [|b buf]; [now rewrite app_nil_r|].
    cbn [write_all_fuel ShortWriter write].
    destruct k as [|k]; [lia|]. cbn [take length].
    rewrite IH by (rewrite length_drop; simpl in *; lia).
    rewrite <- app_assoc. cbn [app drop].
    pose proof (drop_app_length (take k buf) (drop k buf)) as E.
    rewrite take_drop in E. now rewrite E, take_drop.
Qed.

Lemma write_all_short k w buf :
  0 < k -> write_all (ShortWriter k) w buf = (w ++ buf, Some tt).
Proof. intros Hk. now apply write_all_fuel_short. Qed.

(** A writer that takes nothing stops [write_all] with the error
    [WriteZero]. *)
Lemma write_all_zero w buf :
  buf <> [] -> write_all (ShortWriter 0) w buf = (w ++ [], None).
Proof. destruct buf; [congruence | reflexivity]. Qed.

(** ** Lemmas: encodings *)

Section EncodingLemmas.
Context {T : Type} `{Canonical T}.

Lemma encoding_inj (x y : T) e : encoding x = Some e -> encoding y = Some e -> x = y.
Proof. intros Hx Hy. now apply (canonical_prefix_free x y e e [] []). Qed.

Lemma encoding_app_inj (x y : T) ex ey r s :
  encoding x = Some ex -> encoding y = Some ey ->
  ex ++ r = ey ++ s -> x = y /\ r = s.
Proof.
  intros Hx Hy Heq.
  assert (x = y) as -> by (eapply canonical_prefix_free; eauto).
  rewrite Hx in Hy. injection Hy as ->.
  split; [reflexivity | now apply app_inv_head in Heq].
Qed.

End EncodingLemmas.

