(* ===== verification/Cbor.v ===== *)
(** * Cbor: the wire format of the canonical encoder

    [tari_bor] encodes with CBOR (RFC 8949).  Every data item starts with
    a head: a byte holding the major type (3 bits) and either a small
    argument or the width of the big-endian argument that follows.  This
    file models heads, byte strings, text strings, unsigned integers and
    array headers, and proves what the hashers need of them: an encoding
    announces its own length, so no encoding is a prefix of another
    (the law of [Canonical]). *)

From Stdlib Require Import ZArith List String Lia.
From stdpp Require Import base decidable option list.
From coqutil Require Import Byte Word.LittleEndianList.
From S2P Require Import Prelude Digest.

Local Open Scope Z_scope.

(** ** Definitions *)

(** [n] on [k] bytes, most significant first. *)
Definition be_bytes (k : nat) (n : Z) : list byte := rev (le_split k n).

(** Major types. *)
Definition MAJOR_UINT : Z := 0.
Definition MAJOR_BYTES : Z := 2.
Definition MAJOR_TEXT : Z := 3.
Definition MAJOR_ARRAY : Z := 4.

(** The head of a data item of major type [major] with argument [n]:
    the shortest of the five forms; [None] when [n] is no [u64]. *)
Definition cbor_head (major n : Z) : option (list byte) :=
  if n <? 0 then None
  else if n <? 24 then Some [byte.of_Z (major * 32 + n)]
  else if n <? 256 then Some (byte.of_Z (major * 32 + 24) :: be_bytes 1 n)
  else if n <? 65536 then Some (byte.of_Z (major * 32 + 25) :: be_bytes 2 n)
  else if n <? 4294967296 then Some (byte.of_Z (major * 32 + 26) :: be_bytes 4 n)
  else if n <? 18446744073709551616 then Some (byte.of_Z (major * 32 + 27) :: be_bytes 8 n)
  else None.

(** A definite-length string of major type [major]: the head with the
    length, then the content, as two writes. *)
Definition cbor_string (major : Z) (content : list byte) : option (list (list byte)) :=
  h ← cbor_head major (Z.of_nat (length content)); Some [h; content].

Definition cbor_bytes (l : list byte) : option (list (list byte)) :=
  cbor_string MAJOR_BYTES l.

Definition cbor_text (s : string) : option (list (list byte)) :=
  cbor_string MAJOR_TEXT (str_bytes s).

Definition cbor_uint (n : Z) : option (list (list byte)) :=
  h ← cbor_head MAJOR_UINT n; Some [h].

(** An array of [n] items: the head; the items follow. *)
Definition cbor_array_head (n : nat) : option (list (list byte)) :=
  h ← cbor_head MAJOR_ARRAY (Z.of_nat n); Some [h].

(** ** Lemmas *)

Lemma byte_of_Z_inj (a b : Z) :
  0 <= a < 256 -> 0 <= b < 256 -> byte.of_Z a = byte.of_Z b -> a = b.
Proof.
  intros Ha Hb H. apply (f_equal byte.unsigned) in H.
  rewrite !byte.unsigned_of_Z in H. unfold byte.wrap in H.
  rewrite !Z.mod_small in H by (simpl; lia). exact H.
Qed.

Lemma be_bytes_length k n : length (be_bytes k n) = k.
Proof. unfold be_bytes. now rewrite length_rev, length_le_split. Qed.

Lemma be_bytes_inj k n1 n2 :
  0 <= n1 < 2 ^ (Z.of_nat k * 8) -> 0 <= n2 < 2 ^ (Z.of_nat k * 8) ->
  be_bytes k n1 = be_bytes k n2 -> n1 = n2.
Proof.
  intros H1 H2 H. unfold be_bytes in H.
  apply (f_equal (@rev byte)) in H. rewrite !rev_involutive in H.
  apply (f_equal le_combine) in H. rewrite !le_combine_split in H.
  now rewrite !Z.mod_small in H.
Qed.

(** Big-endian arguments of the same width at the start of two equal
    streams are equal, and the streams continue the same way. *)
Lemma be_bytes_app_inj k n1 n2 (r s : list byte) :
  0 <= n1 < 2 ^ (Z.of_nat k * 8) -> 0 <= n2 < 2 ^ (Z.of_nat k * 8) ->
  be_bytes k n1 ++ r = be_bytes k n2 ++ s -> n1 = n2 /\ r = s.
Proof.
  intros H1 H2 H.
  apply app_eq_len in H as [H ->]; [|now rewrite !be_bytes_length].
  split; [now apply (be_bytes_inj k) | reflexivity].
Qed.

Lemma cbor_head_is_Some major n :
  0 <= n < 18446744073709551616 -> is_Some (cbor_head major n).
Proof.
  intros H. unfold cbor_head.
  repeat (case_match; [eauto; lia|]). lia.
Qed.

Lemma cbor_head_Some_range major n h :
  cbor_head major n = Some h -> 0 <= n < 18446744073709551616.
Proof.
  unfold cbor_head. repeat (case_match; [intros; simplify_eq; lia|]).
  discriminate.
Qed.

(** The heads of two items at the start of two equal streams agree on the
    major type and on the argument, and the streams continue the same
    way. *)
Lemma cbor_head_prefix_free m1 m2 n1 n2 h1 h2 (r s : list byte) :
  0 <= m1 < 8 -> 0 <= m2 < 8 ->
  cbor_head m1 n1 = Some h1 -> cbor_head m2 n2 = Some h2 ->
  h1 ++ r = h2 ++ s ->
  m1 = m2 /\ n1 = n2 /\ r = s.
Proof.
  intros Hm1 Hm2 E1 E2 H. unfold cbor_head in E1, E2.
  assert (Hcons : forall (a b : byte) u v, a :: u = b :: v -> a = b /\ u = v)
    by (intros a b u v [= -> ->]; now split).
  repeat match type of E1 with
  | context [if ?a <? ?b then _ else _] => destruct (Z.ltb_spec a b)
  end; try discriminate; injection E1 as <-;
  repeat match type of E2 with
  | context [if ?a <? ?b then _ else _] => destruct (Z.ltb_spec a b)
  end; try discriminate; injection E2 as <-;
  cbn [app] in H; apply Hcons in H as [Hb H];
  apply byte_of_Z_inj in Hb; try lia;
  assert (m1 = m2) as -> by lia;
  try (split; [reflexivity|split; [lia | assumption]]);
  (apply be_bytes_app_inj in H; [intuition|simpl; lia..]).
Qed.

(** Two strings of one major type at the start of two equal streams are
    equal, and the streams continue the same way. *)
Lemma cbor_string_prefix_free major c1 c2 cs1 cs2 (r s : list byte) :
  0 <= major < 8 ->
  cbor_string major c1 = Some cs1 -> cbor_string major c2 = Some cs2 ->
  concat cs1 ++ r = concat cs2 ++ s ->
  c1 = c2 /\ r = s.
Proof.
  intros Hm E1 E2 H. unfold cbor_string in E1, E2.
  destruct (cbor_head major (Z.of_nat (length c1))) as [h1|] eqn:H1; [|discriminate].
  destruct (cbor_head major (Z.of_nat (length c2))) as [h2|] eqn:H2; [|discriminate].
  simpl in E1, E2. injection E1 as <-. injection E2 as <-.
  simpl in H. rewrite !app_nil_r, <- !app_assoc in H.
  eapply cbor_head_prefix_free in H as (_ & Hlen & H); eauto.
  apply app_eq_len in H; [assumption | lia].
Qed.

Lemma cbor_string_is_Some major c :
  Z.of_nat (length c) < 18446744073709551616 -> is_Some (cbor_string major c).
Proof.
  intros H. unfold cbor_string.
  destruct (cbor_head_is_Some major (Z.of_nat (length c))) as [h ->]; [lia|].
  simpl. eauto.
Qed.

(** Known heads (RFC 8949, appendix A). *)
Example cbor_head_vectors :
  cbor_head MAJOR_UINT 10 = Some [Byte.x0a] /\
  cbor_head MAJOR_UINT 1000 = Some [Byte.x19; Byte.x03; Byte.xe8] /\
  cbor_head MAJOR_UINT 1000000 = Some [Byte.x1a; Byte.x00; Byte.x0f; Byte.x42; Byte.x40] /\
  cbor_head MAJOR_BYTES 32 = Some [Byte.x58; Byte.x20] /\
  cbor_head MAJOR_ARRAY 3 = Some [Byte.x83] /\
  cbor_text "IETF" = Some [[Byte.x64]; [Byte.x49; Byte.x45; Byte.x54; Byte.x46]].
Proof. repeat split; vm_compute; reflexivity. Qed.
