(* ===== verification/Types.v ===== *)
(** * Types: the identifiers of tari_template_lib the program handles

    [Hash] is a 32-byte array; [TemplateAddress] is another name of it;
    [ComponentAddress] wraps one.  A [Hash] is a record around its bytes
    with the length as a well-formedness predicate ([hash_wf]) that every
    constructor of the program establishes.  [Hash::from_hex] reads 64
    hexadecimal digits.  On the wire a [Hash] is a CBOR byte string. *)

From Stdlib Require Import ZArith List String Lia.
From stdpp Require Import base decidable option list strings.
From coqutil Require Import Byte.
From S2P Require Import Prelude Digest Cbor.

(** ** Definitions *)

Record Hash : Type := { hash_bytes : list byte }.

Abbreviation TemplateAddress := Hash (only parsing).

#[global] Instance Hash_eq_dec : EqDecision Hash.
Proof. solve_decision. Defined.

Definition hash_wf (h : Hash) : Prop := length (hash_bytes h) = 32.

(** [Hash::from_array], [TemplateAddress::from_array]. *)
Definition from_array (a : list byte) : Hash := {| hash_bytes := a |}.

(** [Hash::from_hex]: 64 hexadecimal digits, or an error. *)
Definition Hash_from_hex (s : string) : outcome Hash :=
  if decide (String.length s = 64) then
    match from_hex s with
    | Some l => Ok (from_array l)
    | None => Err MalformedInput
    end
  else Err MalformedInput.

Definition Hash_to_hex (h : Hash) : string := to_hex (hash_bytes h).

Record ComponentAddress : Type := { component_hash : Hash }.

#[global] Instance ComponentAddress_eq_dec : EqDecision ComponentAddress.
Proof. solve_decision. Defined.

(** [ComponentAddress::new]. *)
Definition ComponentAddress_new (address : Hash) : ComponentAddress :=
  {| component_hash := address |}.

(** [Display for ComponentAddress]. *)
Definition ComponentAddress_to_string (a : ComponentAddress) : string :=
  "component_" +:+ Hash_to_hex (component_hash a).

#[export] Instance Hash_Serialize : Serialize Hash :=
  {| serialize h := cbor_bytes (hash_bytes h) |}.

(** ** Lemmas *)

Lemma from_array_wf a : length a = 32 -> hash_wf (from_array a).
Proof. intros H. exact H. Qed.

Lemma Hash_ext (h k : Hash) : hash_bytes h = hash_bytes k -> h = k.
Proof. destruct h, k; simpl; congruence. Qed.

Lemma Hash_from_hex_Ok s h :
  Hash_from_hex s = Ok h <-> String.length s = 64 /\ from_hex s = Some (hash_bytes h).
Proof.
  unfold Hash_from_hex. destruct (decide _) as [Hl|Hl], (from_hex s) as [l|] eqn:Hf;
    split; try (intros [? ?]; congruence); try discriminate.
  - intros [= <-]. now split.
  - intros [_ [= ->]]. now destruct h.
Qed.

Lemma Hash_from_hex_wf s h : Hash_from_hex s = Ok h -> hash_wf h.
Proof.
  intros [Hl Hf]%Hash_from_hex_Ok. apply from_hex_length in Hf.
  unfold hash_wf. lia.
Qed.

Lemma Hash_from_hex_cases s :
  (exists h, Hash_from_hex s = Ok h) \/ Hash_from_hex s = Err MalformedInput.
Proof.
  unfold Hash_from_hex. destruct (decide _), (from_hex s); eauto.
Qed.

Lemma Hash_to_hex_length h : hash_wf h -> String.length (Hash_to_hex h) = 64.
Proof. unfold hash_wf, Hash_to_hex. intros H. rewrite to_hex_length. lia. Qed.

Lemma Hash_from_hex_to_hex h : hash_wf h -> Hash_from_hex (Hash_to_hex h) = Ok h.
Proof.
  intros H. apply Hash_from_hex_Ok. split.
  - now apply Hash_to_hex_length.
  - apply from_hex_to_hex.
Qed.

Lemma Hash_encodable h : hash_wf h -> encodable h.
Proof.
  intros H. unfold encodable, encoding. simpl. unfold cbor_bytes.
  destruct (cbor_string_is_Some MAJOR_BYTES (hash_bytes h)) as [cs ->].
  - rewrite H. reflexivity.
  - simpl. eauto.
Qed.

Lemma Hash_encoding_wf h :
  hash_wf h -> encoding h = Some ([Byte.x58; Byte.x20] ++ hash_bytes h).
Proof.
  intros H. unfold encoding. simpl. unfold cbor_bytes, cbor_string.
  rewrite H. simpl. now rewrite app_nil_r.
Qed.

#[export] Instance Hash_Canonical : Canonical Hash.
Proof.
  constructor. intros x y ex ey r s Hx Hy H. unfold encoding in Hx, Hy.
  simpl in Hx, Hy. unfold cbor_bytes in Hx, Hy.
  destruct (cbor_string _ (hash_bytes x)) as [cx|] eqn:Ex; [|discriminate].
  destruct (cbor_string _ (hash_bytes y)) as [cy|] eqn:Ey; [|discriminate].
  simpl in Hx, Hy. injection Hx as <-. injection Hy as <-.
  eapply (cbor_string_prefix_free MAJOR_BYTES) in H as [H _];
    [| unfold MAJOR_BYTES; lia | eassumption..].
  now apply Hash_ext.
Qed.

Lemma ComponentAddress_to_string_inj a b :
  ComponentAddress_to_string a = ComponentAddress_to_string b -> a = b.
Proof.
  unfold ComponentAddress_to_string, Hash_to_hex. intros H.
  apply (f_equal str_bytes) in H. rewrite !str_bytes_app in H.
  apply app_inv_head, str_bytes_inj, to_hex_inj in H.
  destruct a as [[x]], b as [[y]]. simpl in H. now subst.
Qed.
