(* ===== verification/Hasher.v ===== *)
(** * Hasher: the canonical hashers of hashing.rs

    [TariHasher32] and [TariHasher64] wrap a Blake2b state of 32 and 64
    bytes of output.  [new_with_label] feeds the domain separation tag;
    [update] runs the canonical encoder over a value with the hasher as
    its writer ([hash_writer]) and panics if the encoder fails; [chain]
    is [update] returning the hasher; [result] finalizes; [digest] is
    [chain] then [result].  [hasher32], [hasher64] and the two template
    hashers fix the engine's hash domain and a label of the registry.

    The abstract state of a hasher is the byte string it has absorbed
    ([holds32], [holds64]); every operation is specified on it
    (refinement), on the success and on the panic branch, and the digest
    is the reference hash of tag ++ encodings, after one update and
    after any sequence of updates ([reachable32]).  From there: domain
    separation and order sensitivity as reductions to a collision of the
    digest.  The loop of [write_all] over the hashers' writer ends after
    one round. *)

From Stdlib Require Import ZArith List String Lia.
From stdpp Require Import base decidable option list.
From coqutil Require Import Byte.
From S2P Require Import Prelude Labels Digest Cbor Types.

Local Open Scope outcome_scope.

(** ** The tag, fed to a digest *)

(** [TDomain::add_domain_separation_tag(&mut digest, label)]. *)
Definition add_domain_separation_tag {n : nat} {D : Digest n}
  (TDomain : HashDomain) (digest : digest_state D) (label : string) : digest_state D :=
  fold_left digest_update (tag_updates TDomain label) digest.

(** ** TariHasher32 *)

Module TariHasher32.
Section Defs.
Context {Blake2b_U32 : Digest 32}.

Record t : Type := { hasher : digest_state Blake2b_U32 }.

Definition new_with_label (TDomain : HashDomain) (label : string) : t :=
  let hasher := digest_new in
  let hasher := add_domain_separation_tag TDomain hasher label in
  {| hasher := hasher |}.

(** [HashWriter]: [write] updates the digest with the whole buffer and
    reports its length; [flush] does nothing. *)
Definition hash_writer : Write (digest_state Blake2b_U32) := {|
  write s buf := (digest_update s buf, Some (length buf));
  flush s := (s, Some tt)
|}.

Definition update {T : Type} `{Serialize T} (self : t) (data : T) : outcome t :=
  match encode_into hash_writer data (hasher self) with
  | (s, Some _) => Ok {| hasher := s |}
  | (_, None) => Panic EncodingFault
  end.

Definition chain {T : Type} `{Serialize T} (self : t) (data : T) : outcome t :=
  let? self := update self data in
  Ok self.

Definition result (self : t) : Hash :=
  let hash := digest_finalize (hasher self) in
  from_array hash.

Definition digest {T : Type} `{Serialize T} (self : t) (data : T) : outcome Hash :=
  let? self := chain self data in
  Ok (result self).

(** The output buffer after the call. *)
Definition finalize_into (self : t) (output : list byte) : list byte :=
  digest_finalize (hasher self).

End Defs.
End TariHasher32.

(** ** TariHasher64 *)

Module TariHasher64.
Section Defs.
Context {Blake2b_U64 : Digest 64}.

Record t : Type := { hasher : digest_state Blake2b_U64 }.

Definition new_with_label (TDomain : HashDomain) (label : string) : t :=
  let hasher := digest_new in
  let hasher := add_domain_separation_tag TDomain hasher label in
  {| hasher := hasher |}.

Definition hash_writer : Write (digest_state Blake2b_U64) := {|
  write s buf := (digest_update s buf, Some (length buf));
  flush s := (s, Some tt)
|}.

Definition update {T : Type} `{Serialize T} (self : t) (data : T) : outcome t :=
  match encode_into hash_writer data (hasher self) with
  | (s, Some _) => Ok {| hasher := s |}
  | (_, None) => Panic EncodingFault
  end.

Definition chain {T : Type} `{Serialize T} (self : t) (data : T) : outcome t :=
  let? self := update self data in
  Ok self.

Definition result (self : t) : list byte :=
  digest_finalize (hasher self).

Definition digest {T : Type} `{Serialize T} (self : t) (data : T) : outcome (list byte) :=
  let? self := chain self data in
  Ok (result self).

Definition finalize_into (self : t) (output : list byte) : list byte :=
  digest_finalize (hasher self).

End Defs.
End TariHasher64.

(** ** The constructors of hashing.rs *)

Section Constructors.
Context {Blake2b_U32 : Digest 32} {Blake2b_U64 : Digest 64}.

Definition hasher64 (label : EngineHashDomainLabel) : TariHasher64.t :=
  TariHasher64.new_with_label TariEngineHashDomain (as_label label).

Definition template_hasher64 : TariHasher64.t :=
  hasher64 Template.

Definition hasher32 (label : EngineHashDomainLabel) : TariHasher32.t :=
  TariHasher32.new_with_label TariEngineHashDomain (as_label label).

Definition template_hasher32 : TariHasher32.t :=
  hasher32 Template.

(** component.rs and signature.rs import [hashing::hasher], which
    hashing.rs does not define; the short-width hasher is the one the
    address and the challenge are specified with. *)
Definition hasher (label : EngineHashDomainLabel) : TariHasher32.t :=
  hasher32 label.

(** ** The abstract state *)

(** The bytes a hasher has absorbed. *)
Definition holds32 (h : TariHasher32.t) (m : list byte) : Prop :=
  absorbed (TariHasher32.hasher h) m.

Definition holds64 (h : TariHasher64.t) (m : list byte) : Prop :=
  absorbed (TariHasher64.hasher h) m.

(** What a hasher of label [label] holds after chaining values with the
    encodings [encs], in order. *)
Definition preimage (label : EngineHashDomainLabel) (encs : list (list byte)) : list byte :=
  domain_separation_tag TariEngineHashDomain (as_label label) ++ concat encs.

(** The hashers a program makes of [hasher32 label]: by [update] (and so
    by [chain]) of values of any type, one after the other.  The index
    is the list of the encodings of the values, in the order of the
    updates. *)
Inductive reachable32 (label : EngineHashDomainLabel)
  : list (list byte) -> TariHasher32.t -> Prop :=
| reachable32_new : reachable32 label [] (hasher32 label)
| reachable32_update {T : Type} `{Serialize T} encs h (data : T) e h' :
    reachable32 label encs h ->
    encoding data = Some e ->
    TariHasher32.update h data = Ok h' ->
    reachable32 label (encs ++ [e]) h'.

End Constructors.

(** ** Lemmas: the tag *)

Section TagLemmas.
Context {n : nat} {D : Digest n}.

Lemma add_domain_separation_tag_absorbed TDomain (s : digest_state D) label m :
  absorbed s m ->
  absorbed (add_domain_separation_tag TDomain s label)
    (m ++ domain_separation_tag TDomain label).
Proof. intros H. now apply absorbed_fold. Qed.

End TagLemmas.

(** ** Lemmas: TariHasher32 *)

Section Hasher32.
Context {Blake2b_U32 : Digest 32}.
Implicit Types (h : TariHasher32.t) (m : list byte).

Lemma new_with_label32_holds TDomain label :
  holds32 (TariHasher32.new_with_label TDomain label)
    (domain_separation_tag TDomain label).
Proof.
  apply (add_domain_separation_tag_absorbed TDomain digest_new label []).
  apply absorbed_new.
Qed.

(** The writer never fails and never writes short. *)
Lemma hash_writer32_write_all (s : digest_state Blake2b_U32) buf :
  write_all TariHasher32.hash_writer s buf = (digest_update s buf, Some tt).
Proof.
  apply write_all_total; [reflexivity | apply digest_update_nil].
Qed.

Lemma update32_unfold {T : Type} `{Serialize T} h (data : T) :
  TariHasher32.update h data
  = match serialize data with
    | Some cs => Ok {| TariHasher32.hasher :=
                         fold_left digest_update cs (TariHasher32.hasher h) |}
    | None => Panic EncodingFault
    end.
Proof.
  unfold TariHasher32.update.
  rewrite (encode_into_total _ digest_update)
    by (reflexivity || apply digest_update_nil).
  now destruct (serialize data).
Qed.

Lemma update32_holds {T : Type} `{Serialize T} h (data : T) m e :
  holds32 h m -> encoding data = Some e ->
  exists h', TariHasher32.update h data = Ok h' /\ holds32 h' (m ++ e).
Proof.
  intros Hh He. rewrite update32_unfold. unfold encoding in He.
  destruct (serialize data) as [cs|]; [|discriminate].
  injection He as <-. eexists. split; [reflexivity|].
  now apply absorbed_fold.
Qed.

Lemma update32_holds_inv {T : Type} `{Serialize T} h (data : T) m e h' :
  holds32 h m -> encoding data = Some e -> TariHasher32.update h data = Ok h' ->
  holds32 h' (m ++ e).
Proof.
  intros Hh He Hu. destruct (update32_holds h data m e Hh He) as (h'' & Hu' & Hh').
  congruence.
Qed.

Lemma update32_panic {T : Type} `{Serialize T} h (data : T) :
  encoding data = None -> TariHasher32.update h data = Panic EncodingFault.
Proof.
  intros He. rewrite update32_unfold. unfold encoding in He.
  now destruct (serialize data).
Qed.

Lemma chain32_update {T : Type} `{Serialize T} h (data : T) :
  TariHasher32.chain h data = TariHasher32.update h data.
Proof. apply obind_ret. Qed.

Lemma result32_holds h m :
  holds32 h m -> TariHasher32.result h = from_array (digest_hash m).
Proof. intros Hh. unfold TariHasher32.result. now rewrite (absorbed_finalize _ m). Qed.

Lemma result32_wf h : hash_wf (TariHasher32.result h).
Proof. apply digest_finalize_length. Qed.

Lemma finalize_into32_result h output :
  TariHasher32.finalize_into h output = hash_bytes (TariHasher32.result h).
Proof. reflexivity. Qed.

End Hasher32.

(** ** Lemmas: TariHasher64 *)

Section Hasher64.
Context {Blake2b_U64 : Digest 64}.
Implicit Types (h : TariHasher64.t) (m : list byte).

Lemma new_with_label64_holds TDomain label :
  holds64 (TariHasher64.new_with_label TDomain label)
    (domain_separation_tag TDomain label).
Proof.
  apply (add_domain_separation_tag_absorbed TDomain digest_new label []).
  apply absorbed_new.
Qed.

Lemma hash_writer64_write_all (s : digest_state Blake2b_U64) buf :
  write_all TariHasher64.hash_writer s buf = (digest_update s buf, Some tt).
Proof.
  apply write_all_total; [reflexivity | apply digest_update_nil].
Qed.

Lemma update64_unfold {T : Type} `{Serialize T} h (data : T) :
  TariHasher64.update h data
  = match serialize data with
    | Some cs => Ok {| TariHasher64.hasher :=
                         fold_left digest_update cs (TariHasher64.hasher h) |}
    | None => Panic EncodingFault
    end.
Proof.
  unfold TariHasher64.update.
  rewrite (encode_into_total _ digest_update)
    by (reflexivity || apply digest_update_nil).
  now destruct (serialize data).
Qed.

Lemma update64_holds {T : Type} `{Serialize T} h (data : T) m e :
  holds64 h m -> encoding data = Some e ->
  exists h', TariHasher64.update h data = Ok h' /\ holds64 h' (m ++ e).
Proof.
  intros Hh He. rewrite update64_unfold. unfold encoding in He.
  destruct (serialize data) as [cs|]; [|discriminate].
  injection He as <-. eexists. split; [reflexivity|].
  now apply absorbed_fold.
Qed.

Lemma update64_panic {T : Type} `{Serialize T} h (data : T) :
  encoding data = None -> TariHasher64.update h data = Panic EncodingFault.
Proof.
  intros He. rewrite update64_unfold. unfold encoding in He.
  now destruct (serialize data).
Qed.

Lemma result64_holds h m :
  holds64 h m -> TariHasher64.result h = digest_hash m.
Proof. intros Hh. unfold TariHasher64.result. now rewrite (absorbed_finalize _ m). Qed.

End Hasher64.

(** ** Properties *)

Section Properties.
Context {Blake2b_U32 : Digest 32} {Blake2b_U64 : Digest 64}.

Lemma hasher32_holds label : holds32 (hasher32 label) (preimage label []).
Proof.
  unfold preimage. cbn [concat]. rewrite app_nil_r.
  apply new_with_label32_holds.
Qed.

Lemma hasher64_holds label : holds64 (hasher64 label) (preimage label []).
Proof.
  unfold preimage. cbn [concat]. rewrite app_nil_r.
  apply new_with_label64_holds.
Qed.

Lemma preimage_snoc label encs e :
  preimage label encs ++ e = preimage label (encs ++ [e]).
Proof.
  unfold preimage. rewrite concat_app. cbn [concat].
  now rewrite app_nil_r, app_assoc.
Qed.

(** Chaining onto a hasher that holds a preimage extends the preimage. *)
Lemma chain32_preimage {T : Type} `{Serialize T} h (data : T) label encs e :
  holds32 h (preimage label encs) -> encoding data = Some e ->
  exists h', TariHasher32.chain h data = Ok h'
             /\ holds32 h' (preimage label (encs ++ [e])).
Proof.
  intros Hh He. rewrite chain32_update, <- preimage_snoc.
  now apply update32_holds.
Qed.

(** The invariant of the hashers of a label: what they hold is the tag
    followed by the encodings of the values they were updated with. *)
Lemma reachable32_holds label encs h :
  reachable32 label encs h -> holds32 h (preimage label encs).
Proof.
  induction 1 as [|T S encs h data e h' _ IH He Hu]; [apply hasher32_holds|].
  rewrite <- preimage_snoc. eapply update32_holds_inv; eauto.
Qed.

Lemma digest32_holds {T : Type} `{Serialize T} h (data : T) m e :
  holds32 h m -> encoding data = Some e ->
  TariHasher32.digest h data = Ok (from_array (digest_hash (n := 32) (m ++ e))).
Proof.
  intros Hh He. unfold TariHasher32.digest. rewrite chain32_update.
  destruct (update32_holds h data m e Hh He) as (h' & -> & Hh').
  rewrite obind_ok. now rewrite (result32_holds h' (m ++ e) Hh').
Qed.

(** What a successful [digest] returns. *)
Lemma digest32_holds_inv {T : Type} `{Serialize T} h (data : T) m d :
  holds32 h m -> TariHasher32.digest h data = Ok d ->
  exists e, encoding data = Some e /\ d = from_array (digest_hash (n := 32) (m ++ e)).
Proof.
  intros Hh Hd. destruct (encoding data) as [e|] eqn:He.
  - exists e. split; [reflexivity|].
    rewrite (digest32_holds _ data _ e Hh He) in Hd. congruence.
  - unfold TariHasher32.digest in Hd.
    rewrite chain32_update, update32_panic in Hd by assumption. discriminate.
Qed.

Lemma digest32_inv {T : Type} `{Serialize T} label (data : T) d :
  TariHasher32.digest (hasher32 label) data = Ok d ->
  exists e, encoding data = Some e
            /\ d = from_array (digest_hash (n := 32) (preimage label [e])).
Proof.
  intros Hd.
  destruct (digest32_holds_inv _ data _ d (hasher32_holds label) Hd) as (e & He & ->).
  exists e. split; [assumption|].
  pose proof (preimage_snoc label [] e) as E. cbn [app] in E. now rewrite E.
Qed.

(** What a successful [chain] then [digest] of a labelled hasher
    returns. *)
Lemma chain_digest32_inv {T1 T2 : Type} `{Serialize T1} `{Serialize T2}
  label (a : T1) (b : T2) d :
  (let? h := TariHasher32.chain (hasher32 label) a in TariHasher32.digest h b) = Ok d ->
  exists ea eb, encoding a = Some ea /\ encoding b = Some eb
    /\ d = from_array (digest_hash (n := 32) (preimage label [ea; eb])).
Proof.
  intros Hd. destruct (encoding a) as [ea|] eqn:Ha.
  - destruct (chain32_preimage _ a label [] ea (hasher32_holds label) Ha)
      as (h' & Hc & Hh').
    rewrite Hc, obind_ok in Hd.
    destruct (digest32_holds_inv h' b _ d Hh' Hd) as (eb & Hb & Hd').
    exists ea, eb. repeat split; try assumption.
    cbn [app] in Hd'. now rewrite (preimage_snoc label [ea] eb) in Hd'.
  - rewrite chain32_update, update32_panic in Hd by assumption. discriminate.
Qed.

(** C2: the digest of a value under a label is the reference hash of the
    domain separation tag followed by the value's encoding: no other
    state enters it. *)
Theorem digest32_spec {T : Type} `{Serialize T}
  (label : EngineHashDomainLabel) (data : T) (e : list byte) :
  encoding data = Some e ->
  TariHasher32.digest (hasher32 label) data
  = Ok (from_array (digest_hash (n := 32)
          (domain_separation_tag TariEngineHashDomain (as_label label) ++ e))).
Proof.
  intros He.
  rewrite (digest32_holds _ data _ e (hasher32_holds label) He).
  unfold preimage. cbn [concat]. now rewrite app_nil_r.
Qed.

(** C11: [update] succeeds exactly when the encoder accepts the value,
    and then the hasher holds what it held followed by the encoding; when
    the encoder fails the outcome is the panic of [expect] and nothing
    else: [update] never returns an error. *)
Theorem update32_outcome {T : Type} `{Serialize T}
  (h : TariHasher32.t) (data : T) (m : list byte) :
  holds32 h m ->
  match encoding data with
  | Some e => exists h', TariHasher32.update h data = Ok h' /\ holds32 h' (m ++ e)
  | None => TariHasher32.update h data = Panic EncodingFault
  end.
Proof.
  intros Hh. destruct (encoding data) as [e|] eqn:He.
  - now apply update32_holds.
  - now apply update32_panic.
Qed.

(** C1: domain separation.  If hashers of two different labels return
    the same digest, whatever values were hashed, then two different
    byte strings with the same Blake2b digest are at hand. *)
Theorem hasher32_domain_separation {T1 T2 : Type} `{Serialize T1} `{Serialize T2}
  (l1 l2 : EngineHashDomainLabel) (x : T1) (y : T2) (d : Hash) :
  l1 <> l2 ->
  TariHasher32.digest (hasher32 l1) x = Ok d ->
  TariHasher32.digest (hasher32 l2) y = Ok d ->
  exists ex ey, encoding x = Some ex /\ encoding y = Some ey
                /\ Collision (n := 32) (preimage l1 [ex]) (preimage l2 [ey]).
Proof.
  intros Hne (ex & Hx & ->)%digest32_inv (ey & Hy & Hd)%digest32_inv.
  exists ex, ey. repeat split; try assumption.
  - unfold preimage. intros [? _]%engine_tag_app_inv. contradiction.
  - now injection Hd.
Qed.

Lemma preimage_order {T : Type} `{Canonical T}
  (label : EngineHashDomainLabel) (a b : T) (ea eb : list byte) :
  encoding a = Some ea -> encoding b = Some eb ->
  preimage label [ea; eb] = preimage label [eb; ea] -> a = b.
Proof.
  intros Ha Hb Heq. unfold preimage in Heq.
  apply app_inv_head in Heq. cbn [concat] in Heq.
  eapply canonical_prefix_free; eauto.
Qed.

(** C18: order sensitivity.  Under a canonical encoder, if chaining [a]
    then [b] and chaining [b] then [a] give the same digest, then
    [a = b] or two different byte strings with the same Blake2b digest
    are at hand. *)
Theorem chain32_order_sensitive {T : Type} `{Canonical T}
  (label : EngineHashDomainLabel) (a b : T) (d : Hash) :
  (let? h := TariHasher32.chain (hasher32 label) a in TariHasher32.digest h b) = Ok d ->
  (let? h := TariHasher32.chain (hasher32 label) b in TariHasher32.digest h a) = Ok d ->
  a = b \/ exists ea eb, encoding a = Some ea /\ encoding b = Some eb
           /\ Collision (n := 32) (preimage label [ea; eb]) (preimage label [eb; ea]).
Proof.
  intros (ea & eb & Ha & Hb & ->)%chain_digest32_inv
         (eb' & ea' & Hb' & Ha' & Hd)%chain_digest32_inv.
  rewrite Ha in Ha'. rewrite Hb in Hb'. injection Ha' as <-. injection Hb' as <-.
  destruct (decide (preimage label [ea; eb] = preimage label [eb; ea])) as [Heq|Hne].
  - left. eapply preimage_order; eauto.
  - right. exists ea, eb. repeat split; try assumption. now injection Hd.
Qed.

(** The state after an update depends on the bytes of the encoding, not
    on how the encoder cuts them into writes. *)
Lemma fold_update_concat {n : nat} {D : Digest n} (s : digest_state D) cs :
  fold_left digest_update cs s = digest_update s (concat cs).
Proof.
  revert s. induction cs as [|c cs IH]; intros s; cbn [fold_left concat].
  - now rewrite digest_update_nil.
  - now rewrite IH, digest_update_app.
Qed.

(** C35: two encoders that produce the same bytes for a value, cut into
    writes differently, leave the hasher in the same state. *)
Theorem update32_chunking {T : Type} (S1 S2 : Serialize T)
  (h : TariHasher32.t) (data : T) :
  @encoding T S1 data = @encoding T S2 data ->
  @TariHasher32.update _ T S1 h data = @TariHasher32.update _ T S2 h data.
Proof.
  intros He. rewrite !update32_unfold. unfold encoding in He.
  destruct (@serialize T S1 data) as [c1|], (@serialize T S2 data) as [c2|];
    try discriminate; [|reflexivity].
  injection He as He. now rewrite !fold_update_concat, He.
Qed.

(** C20: the digest is a function of the label and of the encodings of
    the values chained, in their order, and of nothing else: whatever
    sequence of updates made a hasher of [hasher32 label], its result is
    the reference hash of the tag followed by the encodings. *)
Theorem reachable32_result (label : EngineHashDomainLabel)
  (encs : list (list byte)) (h : TariHasher32.t) :
  reachable32 label encs h ->
  TariHasher32.result h = from_array (digest_hash (n := 32) (preimage label encs)).
Proof. intros Hr%reachable32_holds. now apply result32_holds. Qed.

(** C38: domain separation for every use of the hashers.  Two hashers
    made of different labels, by any sequences of updates, that give the
    same result exhibit two different byte strings with the same Blake2b
    digest: the streams they hold, each the tag of its label followed by
    the encodings it was updated with. *)
Theorem reachable32_domain_separation (l1 l2 : EngineHashDomainLabel)
  (encs1 encs2 : list (list byte)) (h1 h2 : TariHasher32.t) :
  l1 <> l2 ->
  reachable32 l1 encs1 h1 -> reachable32 l2 encs2 h2 ->
  TariHasher32.result h1 = TariHasher32.result h2 ->
  Collision (n := 32) (preimage l1 encs1) (preimage l2 encs2).
Proof.
  intros Hne H1%reachable32_holds H2%reachable32_holds Hr.
  rewrite (result32_holds h1 _ H1), (result32_holds h2 _ H2) in Hr.
  split; [|now injection Hr].
  unfold preimage. intros [? _]%engine_tag_app_inv. contradiction.
Qed.

(** C21: the long hasher on every branch: [digest] of a value under a
    label is the 64-byte reference hash of the domain separation tag
    followed by the value's encoding, and the panic of [expect] when the
    encoder rejects the value. *)
Theorem digest64_outcome {T : Type} `{Serialize T}
  (label : EngineHashDomainLabel) (data : T) :
  TariHasher64.digest (hasher64 label) data
  = match encoding data with
    | Some e =>
        Ok (digest_hash (n := 64)
              (domain_separation_tag TariEngineHashDomain (as_label label) ++ e))
    | None => Panic EncodingFault
    end.
Proof.
  unfold TariHasher64.digest, TariHasher64.chain. rewrite obind_ret.
  destruct (encoding data) as [e|] eqn:He.
  - destruct (update64_holds _ data _ e (hasher64_holds label) He) as (h' & -> & Hh').
    rewrite obind_ok, (result64_holds h' _ Hh').
    unfold preimage. cbn [concat]. now rewrite app_nil_r.
  - now rewrite update64_panic.
Qed.

(** C24: the loop of [write_all] over the writer of the hashers ends
    after one round.  [HashWriter::write] takes the whole buffer, so one
    unit of fuel is enough for a buffer of any length and none is needed
    for an empty one; with less, the loop has not ended.  The fuel
    [write_all] runs with, the length of the buffer, is never
    exhausted. *)
Theorem hash_writer32_rounds (s : digest_state Blake2b_U32) (buf : list byte)
  (fuel : nat) :
  write_all_fuel TariHasher32.hash_writer fuel s buf
  = if decide (Nat.min 1 (length buf) <= fuel)
    then (digest_update s buf, Some tt) else (s, None).
Proof.
  destruct (decide _) as [Hf|Hf].
  - apply write_all_fuel_total; [reflexivity | apply digest_update_nil | exact Hf].
  - destruct buf, fuel; simpl in Hf; try lia. reflexivity.
Qed.

End Properties.

(** ** Witnesses

    The theorems at concrete inputs, with the reference digest
    [WindowDigest] for Blake2b: its digest is a window of the end of the
    message, so two streams with the same end collide. *)

Definition sample_hash : Hash := from_array (replicate 32 Byte.x07).

Definition sample_encoding : list byte :=
  [Byte.x58; Byte.x20] ++ replicate 32 Byte.x07.

(** An encoder for [Hash] that writes the head and the bytes at once. *)
Definition one_write : Serialize Hash :=
  {| serialize h := (fun cs => [concat cs]) <$> cbor_bytes (hash_bytes h) |}.

Lemma digest32_spec_witness :
  TariHasher32.digest (Blake2b_U32 := WindowDigest 32)
    (hasher32 Labels.ComponentAddress) sample_hash
  = Ok (from_array (digest_hash (D := WindowDigest 32)
          (domain_separation_tag TariEngineHashDomain
             (as_label Labels.ComponentAddress)
           ++ sample_encoding))).
Proof.
  apply (digest32_spec (Blake2b_U32 := WindowDigest 32)
           Labels.ComponentAddress sample_hash).
  vm_compute. reflexivity.
Defined.

Lemma update32_outcome_witness :
  exists h', TariHasher32.update (Blake2b_U32 := WindowDigest 32)
               (hasher32 Template) sample_hash = Ok h'
             /\ holds32 h' (preimage Template [] ++ sample_encoding).
Proof.
  exact (update32_outcome (Blake2b_U32 := WindowDigest 32)
           (hasher32 Template) sample_hash _ (hasher32_holds Template)).
Defined.

Lemma hasher32_domain_separation_witness :
  exists ex ey, encoding sample_hash = Some ex /\ encoding sample_hash = Some ey
    /\ Collision (D := WindowDigest 32) (preimage Template [ex]) (preimage Output [ey]).
Proof.
  apply (hasher32_domain_separation (Blake2b_U32 := WindowDigest 32)
           Template Output sample_hash sample_hash
           (from_array (rev (replicate 32 Byte.x07))));
    [discriminate | vm_compute; reflexivity | vm_compute; reflexivity].
Defined.

(** Under a digest that only counts, two different values chained in
    the two orders collide. *)
Definition other_hash : Hash := from_array (replicate 32 Byte.x01).

Definition count_digest_two : Hash :=
  Eval vm_compute in
    from_array (digest_hash (D := CountDigest 32)
                  (preimage Template [sample_encoding; sample_encoding])).

Lemma chain32_order_sensitive_witness :
  exists ea eb, encoding sample_hash = Some ea /\ encoding other_hash = Some eb
    /\ Collision (D := CountDigest 32)
         (preimage Template [ea; eb]) (preimage Template [eb; ea]).
Proof.
  destruct (chain32_order_sensitive (Blake2b_U32 := CountDigest 32)
              Template sample_hash other_hash count_digest_two)
    as [E|H]; [vm_compute; reflexivity | vm_compute; reflexivity
              | discriminate E | exact H].
Defined.

Lemma update32_chunking_witness :
  @TariHasher32.update (WindowDigest 32) Hash Hash_Serialize
    (hasher32 Template) sample_hash
  = @TariHasher32.update (WindowDigest 32) Hash one_write
      (hasher32 Template) sample_hash.
Proof.
  apply (update32_chunking (Blake2b_U32 := WindowDigest 32) Hash_Serialize one_write).
  vm_compute. reflexivity.
Defined.

(** A hasher after two updates. *)
Definition window_chain1 : @TariHasher32.t (WindowDigest 32) :=
  @TariHasher32.Build_t (WindowDigest 32) (preimage Output [sample_encoding]).

Definition window_chain2 : @TariHasher32.t (WindowDigest 32) :=
  @TariHasher32.Build_t (WindowDigest 32)
    (preimage Output [sample_encoding; sample_encoding]).

Lemma reachable32_result_witness :
  TariHasher32.result window_chain2
  = from_array (digest_hash (D := WindowDigest 32)
                  (preimage Output [sample_encoding; sample_encoding])).
Proof.
  apply (reachable32_result (Blake2b_U32 := WindowDigest 32) Output
           [sample_encoding; sample_encoding]).
  apply (reachable32_update (Blake2b_U32 := WindowDigest 32) Output
           [sample_encoding] window_chain1 sample_hash sample_encoding);
    [|reflexivity|reflexivity].
  apply (reachable32_update (Blake2b_U32 := WindowDigest 32) Output
           [] (hasher32 Output) sample_hash sample_encoding);
    [apply reachable32_new|reflexivity|reflexivity].
Defined.

(** Two hashers of different labels updated with the same value, under
    the window digest: the ends of the two streams agree. *)
Lemma reachable32_domain_separation_witness :
  Collision (D := WindowDigest 32)
    (preimage Template [sample_encoding]) (preimage Output [sample_encoding]).
Proof.
  apply (reachable32_domain_separation (Blake2b_U32 := WindowDigest 32)
           Template Output [sample_encoding] [sample_encoding]
           (@TariHasher32.Build_t (WindowDigest 32) (preimage Template [sample_encoding]))
           window_chain1);
    [discriminate | | | reflexivity].
  - apply (reachable32_update (Blake2b_U32 := WindowDigest 32) Template
             [] (hasher32 Template) sample_hash sample_encoding);
      [apply reachable32_new|reflexivity|reflexivity].
  - apply (reachable32_update (Blake2b_U32 := WindowDigest 32) Output
             [] (hasher32 Output) sample_hash sample_encoding);
      [apply reachable32_new|reflexivity|reflexivity].
Defined.
