(* ===== verification/Component.v ===== *)
(** * Component: address derivation (component.rs)

    [new_component_address_from_parts] hashes a template address and a
    component id, in this order, under the label [ComponentAddress] with
    the short hasher.  The two conveniences read the component id from a
    hexadecimal public key and fix the template: 32 zero bytes for
    accounts, 31 zero bytes and a one for account NFTs.

    The theorems: the address is the reference hash of
    tag ++ encoding(template) ++ encoding(id); the conveniences fail with
    [MalformedInput] exactly on malformed hexadecimal and never panic; the
    component id is the decoded key itself; equal addresses come from
    equal parts or exhibit a collision of the digest; the account and the
    account-NFT address of one key are hashes of different streams. *)

From Stdlib Require Import ZArith List String Lia.
From stdpp Require Import base decidable option list.
From coqutil Require Import Byte.
From S2P Require Import Prelude Labels Digest Cbor Types Hasher.

Local Open Scope outcome_scope.

(** ** Definitions *)

Section Component.
Context {Blake2b_U32 : Digest 32}.

Definition new_component_address_from_parts
  (template_address : TemplateAddress) (component_id : Hash) : outcome ComponentAddress :=
  let? h := TariHasher32.chain (hasher Labels.ComponentAddress) template_address in
  let? h := TariHasher32.chain h component_id in
  let address := TariHasher32.result h in
  Ok (ComponentAddress_new address).

Definition ACCOUNT_TEMPLATE_ADDRESS : TemplateAddress :=
  from_array (replicate 32 Byte.x00).

Definition get_account_address_from_public_key (public_key : string)
  : outcome ComponentAddress :=
  let? destination_component_id := Hash_from_hex public_key in
  let? account_address :=
    new_component_address_from_parts ACCOUNT_TEMPLATE_ADDRESS destination_component_id in
  Ok account_address.

Definition ACCOUNT_NFT_TEMPLATE_ADDRESS : TemplateAddress :=
  from_array
    [ Byte.x00; Byte.x00; Byte.x00; Byte.x00; Byte.x00; Byte.x00; Byte.x00; Byte.x00;
      Byte.x00; Byte.x00; Byte.x00; Byte.x00; Byte.x00; Byte.x00; Byte.x00; Byte.x00;
      Byte.x00; Byte.x00; Byte.x00; Byte.x00; Byte.x00; Byte.x00; Byte.x00; Byte.x00;
      Byte.x00; Byte.x00; Byte.x00; Byte.x00; Byte.x00; Byte.x00; Byte.x00; Byte.x01 ].

Definition get_account_nft_address_from_public_key (public_key : string)
  : outcome ComponentAddress :=
  let? destination_component_id := Hash_from_hex public_key in
  let? account_nft_address :=
    new_component_address_from_parts ACCOUNT_NFT_TEMPLATE_ADDRESS destination_component_id in
  Ok account_nft_address.

(** The stream an address is the hash of. *)
Definition address_preimage (template_address : TemplateAddress) (component_id : Hash)
  : list byte :=
  preimage Labels.ComponentAddress
    [ [Byte.x58; Byte.x20] ++ hash_bytes template_address;
      [Byte.x58; Byte.x20] ++ hash_bytes component_id ].

(** The address the specification gives for two well-formed parts. *)
Definition derived_address (template_address : TemplateAddress) (component_id : Hash)
  : ComponentAddress :=
  ComponentAddress_new
    (from_array (digest_hash (n := 32) (address_preimage template_address component_id))).

End Component.

(** ** Lemmas *)

Section ComponentLemmas.
Context {Blake2b_U32 : Digest 32}.

Lemma ACCOUNT_TEMPLATE_ADDRESS_wf : hash_wf ACCOUNT_TEMPLATE_ADDRESS.
Proof. reflexivity. Qed.

Lemma ACCOUNT_NFT_TEMPLATE_ADDRESS_wf : hash_wf ACCOUNT_NFT_TEMPLATE_ADDRESS.
Proof. reflexivity. Qed.

Lemma new_component_address_unfold t c :
  new_component_address_from_parts t c
  = omap ComponentAddress_new
      (let? h := TariHasher32.chain (hasher32 Labels.ComponentAddress) t in
       TariHasher32.digest h c).
Proof.
  unfold new_component_address_from_parts, omap, hasher, TariHasher32.digest.
  destruct (TariHasher32.chain _ t) as [h| |]; [|reflexivity..].
  rewrite !obind_ok. now destruct (TariHasher32.chain h c).
Qed.

(** What a successful derivation returns. *)
Lemma new_component_address_inv t c a :
  new_component_address_from_parts t c = Ok a ->
  exists et ec, encoding t = Some et /\ encoding c = Some ec
    /\ a = ComponentAddress_new
             (from_array (digest_hash (n := 32)
                (preimage Labels.ComponentAddress [et; ec]))).
Proof.
  rewrite new_component_address_unfold. unfold omap. intros H.
  apply obind_ok_inv in H as (d & Hd & [= <-]).
  apply chain_digest32_inv in Hd as (et & ec & Ht & Hc & ->). eauto.
Qed.

Lemma new_component_address_wf_parts t c :
  hash_wf t -> hash_wf c ->
  new_component_address_from_parts t c = Ok (derived_address t c).
Proof.
  intros Ht Hc. unfold new_component_address_from_parts, hasher.
  destruct (chain32_preimage _ t Labels.ComponentAddress [] _
              (hasher32_holds _) (Hash_encoding_wf t Ht)) as (h1 & -> & H1).
  rewrite obind_ok.
  destruct (chain32_preimage _ c Labels.ComponentAddress _ _
              H1 (Hash_encoding_wf c Hc)) as (h2 & -> & H2).
  rewrite obind_ok. cbv zeta. now rewrite (result32_holds h2 _ H2).
Qed.

(** The conveniences, as the derivation applied to the decoded key. *)
Lemma get_account_address_unfold public_key :
  get_account_address_from_public_key public_key
  = let? id := Hash_from_hex public_key in
    Ok (derived_address ACCOUNT_TEMPLATE_ADDRESS id).
Proof.
  unfold get_account_address_from_public_key.
  destruct (Hash_from_hex public_key) as [id| |] eqn:Hid; [|reflexivity..].
  rewrite !obind_ok, new_component_address_wf_parts; [reflexivity..|].
  now apply Hash_from_hex_wf in Hid.
Qed.

Lemma get_account_nft_address_unfold public_key :
  get_account_nft_address_from_public_key public_key
  = let? id := Hash_from_hex public_key in
    Ok (derived_address ACCOUNT_NFT_TEMPLATE_ADDRESS id).
Proof.
  unfold get_account_nft_address_from_public_key.
  destruct (Hash_from_hex public_key) as [id| |] eqn:Hid; [|reflexivity..].
  rewrite !obind_ok, new_component_address_wf_parts; [reflexivity..|].
  now apply Hash_from_hex_wf in Hid.
Qed.

Lemma address_preimage_inj t1 c1 t2 c2 :
  hash_wf t1 -> hash_wf c1 -> hash_wf t2 -> hash_wf c2 ->
  address_preimage t1 c1 = address_preimage t2 c2 -> t1 = t2 /\ c1 = c2.
Proof.
  intros W1 W2 W3 W4 H. unfold address_preimage, preimage in H.
  apply app_inv_head in H. cbn [concat] in H. rewrite !app_nil_r in H.
  apply (encoding_app_inj t1 t2) in H as [-> H]; try now apply Hash_encoding_wf.
  split; [reflexivity|].
  apply (encoding_inj c1 c2 ([Byte.x58; Byte.x20] ++ hash_bytes c1));
    [now apply Hash_encoding_wf | rewrite H; now apply Hash_encoding_wf].
Qed.

End ComponentLemmas.

(** ** Properties *)

Section ComponentProperties.
Context {Blake2b_U32 : Digest 32}.

(** C3: the address of two well-formed parts is the reference hash of
    the [ComponentAddress] tag, the encoding of the template address and
    the encoding of the component id, in this order; the derivation does
    not panic. *)
Theorem new_component_address_from_parts_spec (t : TemplateAddress) (c : Hash) :
  hash_wf t -> hash_wf c ->
  new_component_address_from_parts t c
  = Ok (ComponentAddress_new (from_array (digest_hash (n := 32)
          (domain_separation_tag TariEngineHashDomain "ComponentAddress"
           ++ ([Byte.x58; Byte.x20] ++ hash_bytes t)
           ++ ([Byte.x58; Byte.x20] ++ hash_bytes c))))).
Proof.
  intros Ht Hc. rewrite new_component_address_wf_parts by assumption.
  unfold derived_address, address_preimage, preimage. cbn [concat as_label].
  now rewrite app_nil_r.
Qed.

(** C13: the account address of a public key: malformed hexadecimal
    (not 64 digits) is the error [MalformedInput]; otherwise the address
    derived from the zero template and the decoded key.  No input makes
    the function panic. *)
Theorem get_account_address_from_public_key_spec (public_key : string) :
  get_account_address_from_public_key public_key
  = match from_hex public_key with
    | Some key =>
        if decide (String.length public_key = 64)
        then Ok (derived_address ACCOUNT_TEMPLATE_ADDRESS (from_array key))
        else Err MalformedInput
    | None => Err MalformedInput
    end.
Proof.
  unfold get_account_address_from_public_key, Hash_from_hex.
  destruct (decide _) as [Hl|Hl], (from_hex public_key) as [key|] eqn:Hk;
    try reflexivity.
  rewrite obind_ok, new_component_address_wf_parts; [reflexivity..|].
  apply from_hex_length in Hk. unfold hash_wf. simpl. lia.
Qed.

(** C30: the same for the account-NFT address, with the template whose
    last byte is one. *)
Theorem get_account_nft_address_from_public_key_spec (public_key : string) :
  get_account_nft_address_from_public_key public_key
  = match from_hex public_key with
    | Some key =>
        if decide (String.length public_key = 64)
        then Ok (derived_address
                   (from_array (replicate 31 Byte.x00 ++ [Byte.x01])) (from_array key))
        else Err MalformedInput
    | None => Err MalformedInput
    end.
Proof.
  unfold get_account_nft_address_from_public_key, Hash_from_hex.
  destruct (decide _) as [Hl|Hl], (from_hex public_key) as [key|] eqn:Hk;
    try reflexivity.
  rewrite obind_ok, new_component_address_wf_parts; [reflexivity..|].
  apply from_hex_length in Hk. unfold hash_wf. simpl. lia.
Qed.

(** C19: two derivations that return the same address started from the
    same template and component id, or two different streams with the
    same Blake2b digest are at hand. *)
Theorem new_component_address_from_parts_inj
  (t1 t2 : TemplateAddress) (c1 c2 : Hash) (a : ComponentAddress) :
  hash_wf t1 -> hash_wf c1 -> hash_wf t2 -> hash_wf c2 ->
  new_component_address_from_parts t1 c1 = Ok a ->
  new_component_address_from_parts t2 c2 = Ok a ->
  (t1 = t2 /\ c1 = c2)
  \/ Collision (n := 32) (address_preimage t1 c1) (address_preimage t2 c2).
Proof.
  intros W1 W2 W3 W4 H1 H2.
  rewrite new_component_address_wf_parts in H1, H2 by assumption.
  destruct (decide (address_preimage t1 c1 = address_preimage t2 c2)) as [E|E].
  - left. now apply address_preimage_inj.
  - right. split; [assumption|].
    unfold derived_address, ComponentAddress_new, from_array in H1, H2. congruence.
Qed.

(** C29: the account address and the account-NFT address of one key are
    hashes of different streams: if they are equal, a collision of the
    digest is at hand. *)
Theorem account_and_nft_address_differ (public_key : string) (a : ComponentAddress) :
  get_account_address_from_public_key public_key = Ok a ->
  get_account_nft_address_from_public_key public_key = Ok a ->
  exists key, from_hex public_key = Some key
    /\ Collision (n := 32)
         (address_preimage ACCOUNT_TEMPLATE_ADDRESS (from_array key))
         (address_preimage ACCOUNT_NFT_TEMPLATE_ADDRESS (from_array key)).
Proof.
  rewrite get_account_address_unfold, get_account_nft_address_unfold.
  destruct (Hash_from_hex public_key) as [id| |] eqn:Hid; try discriminate.
  rewrite !obind_ok. intros H1 H2.
  pose proof (Hash_from_hex_wf _ _ Hid) as Wk.
  apply Hash_from_hex_Ok in Hid as [_ Hk].
  exists (hash_bytes id). split; [exact Hk|].
  replace (from_array (hash_bytes id)) with id by now destruct id.
  split.
  - intros E. apply address_preimage_inj in E as [E _]; try assumption;
      try reflexivity.
    discriminate E.
  - rewrite <- H2 in H1.
    unfold derived_address, ComponentAddress_new, from_array in H1.
    injection H1 as H1. exact H1.
Qed.

End ComponentProperties.

(** ** Witnesses *)

Definition sample_key_hex : string :=
  "0707070707070707070707070707070707070707070707070707070707070707".

Definition sample_address : ComponentAddress :=
  ComponentAddress_new (from_array (replicate 32 Byte.x07)).

Lemma new_component_address_from_parts_spec_witness :
  new_component_address_from_parts (Blake2b_U32 := WindowDigest 32)
    ACCOUNT_TEMPLATE_ADDRESS sample_hash
  = Ok sample_address.
Proof.
  rewrite (new_component_address_from_parts_spec (Blake2b_U32 := WindowDigest 32)
             ACCOUNT_TEMPLATE_ADDRESS sample_hash);
    reflexivity.
Defined.

Lemma new_component_address_from_parts_inj_witness :
  (ACCOUNT_TEMPLATE_ADDRESS = ACCOUNT_NFT_TEMPLATE_ADDRESS /\ sample_hash = sample_hash)
  \/ Collision (D := WindowDigest 32)
       (address_preimage ACCOUNT_TEMPLATE_ADDRESS sample_hash)
       (address_preimage ACCOUNT_NFT_TEMPLATE_ADDRESS sample_hash).
Proof.
  apply (new_component_address_from_parts_inj (Blake2b_U32 := WindowDigest 32)
           ACCOUNT_TEMPLATE_ADDRESS ACCOUNT_NFT_TEMPLATE_ADDRESS sample_hash sample_hash
           sample_address);
    vm_compute; reflexivity.
Defined.

Lemma account_and_nft_address_differ_witness :
  exists key, from_hex sample_key_hex = Some key
    /\ Collision (D := WindowDigest 32)
         (address_preimage ACCOUNT_TEMPLATE_ADDRESS (from_array key))
         (address_preimage ACCOUNT_NFT_TEMPLATE_ADDRESS (from_array key)).
Proof.
  apply (account_and_nft_address_differ (Blake2b_U32 := WindowDigest 32)
           sample_key_hex sample_address);
    vm_compute; reflexivity.
Defined.
