(* ===== verification/Vectors.v ===== *)
(** * Vectors: the hashers over Blake2b

    The hashers of hashing.rs with the digest they are instantiated
    with.  The hasher feeds Blake2b piecewise (the five pieces of the
    tag, then the writes of the encoder); the theorems here say that the
    result is the one-shot function of RFC 7693 on the concatenation,
    and that the state of Blake2b inside a hasher is well-formed and has
    taken exactly the tag and the encodings.  The known answers of the
    RFC check the model of Blake2b by computation; the addresses of a
    fixed key are the regression vectors the specification asks for. *)

From Stdlib Require Import ZArith List String Lia.
From stdpp Require Import base decidable option list strings.
From coqutil Require Import Byte.
From S2P Require Import Prelude Labels Digest Blake2b Cbor Types Hasher Component.

Local Open Scope outcome_scope.

(** ** Theorems *)

(** C12: the short hasher over Blake2b.  Fed piecewise with the tag and
    with the encoder's writes, [digest] returns the one-shot Blake2b-256
    of the domain separation tag followed by the encoding: streaming and
    one-shot hashing agree. *)
Theorem digest32_blake2b {T : Type} `{Serialize T}
  (label : EngineHashDomainLabel) (data : T) (e : list byte) :
  encoding data = Some e ->
  TariHasher32.digest (Blake2b_U32 := Blake2b_256) (hasher32 label) data
  = Ok (from_array
          (blake2b 32 (domain_separation_tag TariEngineHashDomain (as_label label) ++ e))).
Proof.
  intros He.
  rewrite (digest32_holds (Blake2b_U32 := Blake2b_256) _ data _ e
             (hasher32_holds label) He).
  unfold digest_hash. cbn [digest_finalize digest_update digest_new Blake2b_256].
  rewrite finalize_update. unfold preimage. cbn [concat]. now rewrite app_nil_r.
Qed.

(** C36: the state of Blake2b inside a hasher.  Whatever sequence of
    updates made a hasher of [hasher32 label] over Blake2b-256, its
    state is well-formed (eight chaining words of 64 bits, at most one
    block pending, a counter that is a multiple of 128) and has taken
    the tag followed by the encodings: counter and pending block add up
    to the length of that stream, and the pending block is its
    uncompressed end. *)
Theorem reachable32_blake2b_state (label : EngineHashDomainLabel)
  (encs : list (list byte)) (h : TariHasher32.t) :
  reachable32 (Blake2b_U32 := Blake2b_256) label encs h ->
  state_wf (TariHasher32.hasher h)
  /\ absorbs (TariHasher32.hasher h) (preimage label encs).
Proof.
  intros Hr%reachable32_holds. unfold holds32, absorbed in Hr. rewrite Hr.
  apply (update_init_inv 32). lia.
Qed.

(** ** Known answers *)

(** Regression vectors.  With Blake2b-256, the account address and the
    account-NFT address of the key [07 .. 07] are these literals; the
    stream hashed for the account address is the tag
    [com.tari.dan.engine.v0.ComponentAddress] with its length, the
    encoded zero template and the encoded key. *)
Example account_address_known_vector :
  omap ComponentAddress_to_string
    (get_account_address_from_public_key (Blake2b_U32 := Blake2b_256) sample_key_hex)
  = Ok "component_8b3307d3dd22f3d7f34bef4f13527b349d2472db5e20eb0eafb7ae997e5d9367"%string
  /\ omap ComponentAddress_to_string
       (get_account_nft_address_from_public_key (Blake2b_U32 := Blake2b_256)
          sample_key_hex)
     = Ok "component_ba73f9e27d12e76730d417ccd33740d3dd9ea688584953742865db4a73793c74"%string
  /\ to_hex (address_preimage ACCOUNT_TEMPLATE_ADDRESS sample_hash)
     = ("2700000000000000636f6d2e746172692e64616e2e656e67696e652e76302e43"
        +:+ "6f6d706f6e656e7441646472657373"
        +:+ "58200000000000000000000000000000000000000000000000000000000000000000"
        +:+ "58200707070707070707070707070707070707070707070707070707070707070707")%string.
Proof. repeat split; vm_compute; reflexivity. Qed.

(** The known answers of RFC 7693 (appendix A) and of the reference
    implementation, for both widths. *)
Example blake2b_known_answers :
  to_hex (blake2b 64 (str_bytes "abc"))
  = ("ba80a53f981c4d0d6a2797b69f12f6e94c212f14685ac4b74b12bb6fdbffa2d1"
     +:+ "7d87c5392aab792dc252d5de4533cc9518d38aa8dbf1925ab92386edd4009923")%string
  /\ to_hex (blake2b 32 (str_bytes "abc"))
     = "bddd813c634239723171ef3fee98579b94964e3bb1cb3e427262c8c068d52319"%string
  /\ to_hex (blake2b 64 [])
     = ("786a02f742015903c6c6fd852552d272912f4740e15847618a86e217f71f5419"
        +:+ "d25e1031afee585313896444934eb04b903a685b1448b755d56f701afe9be2ce")%string
  /\ to_hex (blake2b 32 [])
     = "0e5751c026e543b2e8ab2eb06099daa1d1e5df47778f7787faab45cdf12fe3a8"%string.
Proof. repeat split; vm_compute; reflexivity. Qed.

(** ** Witnesses *)

Lemma digest32_blake2b_witness :
  TariHasher32.digest (Blake2b_U32 := Blake2b_256) (hasher32 Output) sample_hash
  = Ok (from_array
          (blake2b 32 (domain_separation_tag TariEngineHashDomain (as_label Output)
                       ++ sample_encoding))).
Proof.
  apply (digest32_blake2b Output sample_hash sample_encoding). reflexivity.
Defined.

(** A hasher of label [Output] after one update, over Blake2b-256. *)
Lemma reachable32_blake2b_state_witness :
  exists h, TariHasher32.update (Blake2b_U32 := Blake2b_256) (hasher32 Output) sample_hash
            = Ok h
    /\ state_wf (TariHasher32.hasher h)
    /\ absorbs (TariHasher32.hasher h) (preimage Output [sample_encoding]).
Proof.
  assert (He : encoding sample_hash = Some sample_encoding) by reflexivity.
  destruct (update32_holds (Blake2b_U32 := Blake2b_256) (hasher32 Output) sample_hash
              _ sample_encoding (hasher32_holds Output) He) as (h & Hu & _).
  exists h. split; [exact Hu|].
  apply (reachable32_blake2b_state Output [sample_encoding] h).
  exact (reachable32_update (Blake2b_U32 := Blake2b_256) Output [] (hasher32 Output)
           sample_hash sample_encoding h (reachable32_new Output) He Hu).
Defined.
