(* ===== verification/Instruction.v ===== *)
(** * Instruction: the values lib.rs assembles

    The instruction model and its arguments belong to crates the program
    only uses; this file holds them as far as lib.rs constructs them:
    the four instruction variants it builds, the two kinds of argument of
    the [args!] macro (a literal is the canonical encoding of the value,
    a workspace reference is the key's bytes), amounts, resource
    addresses, owner tokens and substate addresses.  How these values are
    encoded, and how a shard id is computed from a substate address, is
    the interface [TemplateLib]; the theorems about transactions hold for
    every implementation of it. *)

From Stdlib Require Import ZArith List String Lia.
From stdpp Require Import base decidable option list strings.
From coqutil Require Import Byte.
From S2P Require Import Prelude Digest Cbor Types.

Local Open Scope outcome_scope.

(** ** Values *)

Record ResourceAddress : Type := { resource_hash : Hash }.

(** [ResourceAddress::from_str]: hexadecimal, with or without the prefix
    [resource_]. *)
Definition strip_prefix (p s : string) : string :=
  if String.prefix p s then String.substring (String.length p) (String.length s - String.length p) s
  else s.

Definition ResourceAddress_from_str (s : string) : outcome ResourceAddress :=
  let? h := Hash_from_hex (strip_prefix "resource_" s) in
  Ok {| resource_hash := h |}.

(** An [i64]. *)
Definition i64_range (z : Z) : Prop := (- 2 ^ 63 <= z < 2 ^ 63)%Z.

Record Amount : Type := { amount_value : Z }.

Definition Amount_new (amount : Z) : Amount := {| amount_value := amount |}.

(** [RistrettoPublicKeyBytes]: 32 bytes; [from_bytes] refuses any other
    length. *)
Record RistrettoPublicKeyBytes : Type := { key_bytes : list byte }.

Definition RistrettoPublicKeyBytes_from_bytes (b : list byte)
  : option RistrettoPublicKeyBytes :=
  if decide (length b = 32) then Some {| key_bytes := b |} else None.

(** [NonFungibleAddress::from_public_key]: the owner token of a key. *)
Record NonFungibleAddress : Type := { owner_key : RistrettoPublicKeyBytes }.

Definition NonFungibleAddress_from_public_key (k : RistrettoPublicKeyBytes)
  : NonFungibleAddress :=
  {| owner_key := k |}.

Inductive SubstateAddress : Type :=
  | Resource (address : ResourceAddress)
  | Component (address : ComponentAddress).

Record ShardId : Type := { shard_hash : Hash }.

#[global] Instance ResourceAddress_eq_dec : EqDecision ResourceAddress.
Proof. solve_decision. Defined.
#[global] Instance Amount_eq_dec : EqDecision Amount.
Proof. solve_decision. Defined.
#[global] Instance RistrettoPublicKeyBytes_eq_dec : EqDecision RistrettoPublicKeyBytes.
Proof. solve_decision. Defined.
#[global] Instance NonFungibleAddress_eq_dec : EqDecision NonFungibleAddress.
Proof. solve_decision. Defined.
#[global] Instance SubstateAddress_eq_dec : EqDecision SubstateAddress.
Proof. solve_decision. Defined.
#[global] Instance ShardId_eq_dec : EqDecision ShardId.
Proof. solve_decision. Defined.

(** ** Arguments and instructions *)

Inductive Arg : Type :=
  | Workspace (key : list byte)
  | Literal (bytes : list byte).

Inductive Instruction : Type :=
  | CallFunction (template_address : TemplateAddress) (function : string)
      (args : list Arg)
  | CallMethod (component_address : ComponentAddress) (method : string)
      (args : list Arg)
  | PutLastInstructionOutputOnWorkspace (key : list byte)
  | CreateFreeTestCoins (revealed_amount : Amount) (output : option (list byte)).

#[global] Instance Arg_eq_dec : EqDecision Arg.
Proof. solve_decision. Defined.
#[global] Instance Instruction_eq_dec : EqDecision Instruction.
Proof. solve_decision. Defined.

(** An item of [args!] that is a value: its canonical encoding,
    unwrapped. *)
Definition arg_literal {T : Type} `{Serialize T} (value : T) : outcome Arg :=
  let? bytes := expect EncodingFault (encoding value) in
  Ok (Literal bytes).

(** An item [Workspace("key")] of [args!]. *)
Definition arg_workspace (key : string) : Arg := Workspace (str_bytes key).

(** ** What the program needs of the template library *)

Class TemplateLib : Type := {
  ResourceAddress_Serialize :: Serialize ResourceAddress;
  Amount_Serialize :: Serialize Amount;
  NonFungibleAddress_Serialize :: Serialize NonFungibleAddress;
  Instructions_Serialize :: Serialize (list Instruction);
  (** [ShardId::from_address(&address, version)]. *)
  ShardId_from_address : SubstateAddress -> Z -> ShardId;
  (** The library encodes every value of these types: *)
  ResourceAddress_encodable : forall r : ResourceAddress,
    hash_wf (resource_hash r) -> encodable r;
  Amount_encodable : forall a : Amount, i64_range (amount_value a) -> encodable a;
  NonFungibleAddress_encodable : forall n : NonFungibleAddress,
    length (key_bytes (owner_key n)) = 32 -> encodable n;
  (** and instruction sequences canonically. *)
  Instructions_Canonical :: Canonical (list Instruction)
}.

(** ** Lemmas *)

Lemma RistrettoPublicKeyBytes_from_bytes_Some b :
  length b = 32 ->
  RistrettoPublicKeyBytes_from_bytes b = Some {| key_bytes := b |}.
Proof.
  intros H. unfold RistrettoPublicKeyBytes_from_bytes.
  now destruct (decide _).
Qed.

Lemma RistrettoPublicKeyBytes_from_bytes_length b k :
  RistrettoPublicKeyBytes_from_bytes b = Some k -> length (key_bytes k) = 32.
Proof.
  unfold RistrettoPublicKeyBytes_from_bytes.
  destruct (decide _); intros [= <-]; assumption.
Qed.

Lemma ResourceAddress_from_str_wf s r :
  ResourceAddress_from_str s = Ok r -> hash_wf (resource_hash r).
Proof.
  unfold ResourceAddress_from_str. intros H.
  apply obind_ok_inv in H as (h & Hh & [= <-]).
  now apply Hash_from_hex_wf in Hh.
Qed.

Lemma ResourceAddress_from_str_cases s :
  (exists r, ResourceAddress_from_str s = Ok r)
  \/ ResourceAddress_from_str s = Err MalformedInput.
Proof.
  unfold ResourceAddress_from_str.
  destruct (Hash_from_hex_cases (strip_prefix "resource_" s)) as [[h ->]| ->]; eauto.
Qed.

Lemma arg_literal_Ok {T : Type} `{Serialize T} (value : T) :
  encodable value -> exists bytes, encoding value = Some bytes
                                   /\ arg_literal value = Ok (Literal bytes).
Proof.
  intros [bytes Hb]. exists bytes. split; [assumption|].
  unfold arg_literal. now rewrite Hb.
Qed.

Lemma arg_literal_cases {T : Type} `{Serialize T} (value : T) :
  (exists bytes, arg_literal value = Ok (Literal bytes))
  \/ arg_literal value = Panic EncodingFault.
Proof.
  unfold arg_literal. destruct (encoding value); simpl; eauto.
Qed.
