(* ===== verification/Keys.v ===== *)
(** * Keys: the asymmetric key primitive the program consumes

    signature.rs and lib.rs use Ristretto keys and Schnorr signatures of
    tari_crypto: keys are read from and written to bytes, a public key is
    derived from a secret key, a message is signed and a signature
    verified.  [Schnorr] is that interface.  Signing draws a nonce; the
    model passes it as an argument, so that signing is a function.  The
    hexadecimal import and export of keys are those of tari_utilities:
    the hexadecimal form of the bytes.

    [ToySchnorr] is a lawful instance that computes: Schnorr's scheme in
    the additive group of integers modulo the order of the Ristretto
    group.  It gives no security and is there to run the program on
    concrete inputs. *)

From Stdlib Require Import ZArith List String Lia.
From stdpp Require Import base decidable option list.
From coqutil Require Import Byte LittleEndianList.
From S2P Require Import Prelude.

Local Open Scope outcome_scope.

(** ** The interface *)

Class Schnorr : Type := {
  RistrettoSecretKey : Type;
  RistrettoPublicKey : Type;
  Signature : Type;
  Nonce : Type;
  (** [ByteArray::from_bytes] and [ByteArray::as_bytes] of the keys. *)
  secret_key_from_bytes : list byte -> option RistrettoSecretKey;
  secret_key_as_bytes : RistrettoSecretKey -> list byte;
  public_key_from_bytes : list byte -> option RistrettoPublicKey;
  public_key_as_bytes : RistrettoPublicKey -> list byte;
  (** [PublicKey::from_secret_key]. *)
  from_secret_key : RistrettoSecretKey -> RistrettoPublicKey;
  (** [SchnorrSignature::sign_message] and [verify_message]. *)
  sign_message : RistrettoSecretKey -> Nonce -> list byte -> option Signature;
  verify_message : Signature -> RistrettoPublicKey -> list byte -> bool;
  (** Keys are 32 bytes. *)
  secret_key_as_bytes_length : forall k, length (secret_key_as_bytes k) = 32;
  public_key_as_bytes_length : forall p, length (public_key_as_bytes p) = 32;
  (** A signature made with a key verifies under the key's public key. *)
  sign_verify : forall k r m s,
    sign_message k r m = Some s -> verify_message s (from_secret_key k) m = true
}.

(** The primitive signs every 32-byte message. *)
Class SchnorrTotal (S : Schnorr) : Prop := {
  sign_total : forall k r m, length m = 32 -> is_Some (sign_message k r m)
}.

Section Hex.
Context {S : Schnorr}.

(** [Hex::from_hex] and [Hex::to_hex] of a [ByteArray]. *)
Definition RistrettoSecretKey_from_hex (hex : string) : outcome RistrettoSecretKey :=
  let? bytes := ok_or MalformedInput (from_hex hex) in
  ok_or MalformedInput (secret_key_from_bytes bytes).

Definition RistrettoSecretKey_to_hex (k : RistrettoSecretKey) : string :=
  to_hex (secret_key_as_bytes k).

Definition RistrettoPublicKey_from_hex (hex : string) : outcome RistrettoPublicKey :=
  let? bytes := ok_or MalformedInput (from_hex hex) in
  ok_or MalformedInput (public_key_from_bytes bytes).

Definition RistrettoPublicKey_to_hex (p : RistrettoPublicKey) : string :=
  to_hex (public_key_as_bytes p).

End Hex.

(** ** A reference instance *)

(** The order of the Ristretto group. *)
Definition group_order : Z :=
  2 ^ 252 + 27742317777372353535851937790883648493.

Definition toy_base : Z := 9.

Definition toy_key_from_bytes (b : list byte) : option Z :=
  if decide (length b = 32) then
    let z := le_combine b in
    if decide (z < group_order)%Z then Some z else None
  else None.

(** The challenge of a signature: nonce commitment, public key and
    message, as a scalar. *)
Definition toy_challenge (R P : Z) (m : list byte) : Z :=
  ((R + 2 * P + 3 * le_combine m) mod group_order)%Z.

Definition toy_sign (k r : Z) (m : list byte) : option (Z * Z) :=
  let R := ((r * toy_base) mod group_order)%Z in
  let P := ((k * toy_base) mod group_order)%Z in
  Some (R, ((r + toy_challenge R P m * k) mod group_order)%Z).

Definition toy_verify (sg : Z * Z) (P : Z) (m : list byte) : bool :=
  let '(R, s) := sg in
  bool_decide (((s * toy_base) mod group_order
                = (R + toy_challenge R P m * P) mod group_order)%Z).

(** ** Lemmas *)

Section HexLemmas.
Context {S : Schnorr}.

Lemma RistrettoSecretKey_from_hex_cases hex :
  (exists k, RistrettoSecretKey_from_hex hex = Ok k)
  \/ RistrettoSecretKey_from_hex hex = Err MalformedInput.
Proof.
  unfold RistrettoSecretKey_from_hex.
  destruct (from_hex hex) as [b|]; simpl; [|now right].
  destruct (secret_key_from_bytes b); simpl; eauto.
Qed.

Lemma RistrettoPublicKey_from_hex_cases hex :
  (exists p, RistrettoPublicKey_from_hex hex = Ok p)
  \/ RistrettoPublicKey_from_hex hex = Err MalformedInput.
Proof.
  unfold RistrettoPublicKey_from_hex.
  destruct (from_hex hex) as [b|]; simpl; [|now right].
  destruct (public_key_from_bytes b); simpl; eauto.
Qed.

Lemma RistrettoSecretKey_to_hex_length k :
  String.length (RistrettoSecretKey_to_hex k) = 64.
Proof.
  unfold RistrettoSecretKey_to_hex.
  rewrite to_hex_length, secret_key_as_bytes_length. reflexivity.
Qed.

Lemma RistrettoPublicKey_to_hex_length p :
  String.length (RistrettoPublicKey_to_hex p) = 64.
Proof.
  unfold RistrettoPublicKey_to_hex.
  rewrite to_hex_length, public_key_as_bytes_length. reflexivity.
Qed.

Lemma RistrettoPublicKey_to_hex_decodes p :
  from_hex (RistrettoPublicKey_to_hex p) = Some (public_key_as_bytes p).
Proof. apply from_hex_to_hex. Qed.

End HexLemmas.

Lemma toy_sign_verify k r m s :
  toy_sign k r m = Some s ->
  toy_verify s ((k * toy_base) mod group_order)%Z m = true.
Proof.
  unfold toy_sign, toy_verify. intros [= <-].
  apply bool_decide_eq_true.
  set (R := ((r * toy_base) mod group_order)%Z).
  set (P := ((k * toy_base) mod group_order)%Z).
  set (e := toy_challenge R P m).
  rewrite Z.mul_mod_idemp_l by discriminate.
  unfold R, P.
  rewrite Z.add_mod_idemp_l by discriminate.
  rewrite <- (Z.add_mod_idemp_r _ (e * _)) by discriminate.
  rewrite Z.mul_mod_idemp_r by discriminate.
  rewrite Z.add_mod_idemp_r by discriminate.
  f_equal. ring.
Qed.

#[export] Instance ToySchnorr : Schnorr := {|
  RistrettoSecretKey := Z;
  RistrettoPublicKey := Z;
  Signature := Z * Z;
  Nonce := Z;
  secret_key_from_bytes := toy_key_from_bytes;
  secret_key_as_bytes := le_split 32;
  public_key_from_bytes := toy_key_from_bytes;
  public_key_as_bytes := le_split 32;
  from_secret_key k := ((k * toy_base) mod group_order)%Z;
  sign_message := toy_sign;
  verify_message := toy_verify;
  secret_key_as_bytes_length := length_le_split 32;
  public_key_as_bytes_length := length_le_split 32;
  sign_verify := toy_sign_verify
|}.

#[export] Instance ToySchnorr_total : SchnorrTotal ToySchnorr.
Proof. constructor. intros k r m _. unfold sign_message; simpl. eauto. Qed.
