(* ===== verification/Bor.v ===== *)
(** * Bor: a reference canonical encoder

    The program hashes and signs canonical encodings and leaves the
    encoder to tari_bor.  This file gives an encoder to run the program
    with: values become CBOR data items ([item]: unsigned and negative
    integers, byte and text strings, arrays), an item is written as its
    head followed by its content, and a value of the program is written
    as the item [to_item] makes of it.  The field layout of the items is
    this file's own; what the theorems of the development use of an
    encoder is only the law of [Canonical], proved here for every type
    with an injective [to_item]: an item announces its kind and its
    length in its head, so no encoding is a prefix of another.

    [BorTemplateLib] is the resulting implementation of [TemplateLib]. *)

From Stdlib Require Import ZArith List String Lia.
From stdpp Require Import base decidable option list.
From coqutil Require Import Byte.
From S2P Require Import Prelude Digest Cbor Types Instruction.

Local Open Scope Z_scope.

(** ** Items *)

#[warnings="-register-all"]
Inductive item : Type :=
  | IUint (n : Z)
  | INint (n : Z)
  | IBytes (b : list byte)
  | IText (s : string)
  | IArray (l : list item).

Definition item_major (i : item) : Z :=
  match i with
  | IUint _ => 0 | INint _ => 1 | IBytes _ => 2 | IText _ => 3 | IArray _ => 4
  end.

(** The argument of the head: the number itself, or the length. *)
Definition item_arg (i : item) : Z :=
  match i with
  | IUint n | INint n => n
  | IBytes b => Z.of_nat (length b)
  | IText s => Z.of_nat (length (str_bytes s))
  | IArray l => Z.of_nat (length l)
  end.

Fixpoint encode_item (i : item) : option (list byte) :=
  h ← cbor_head (item_major i) (item_arg i);
  body ← match i with
         | IUint _ | INint _ => Some []
         | IBytes b => Some b
         | IText s => Some (str_bytes s)
         | IArray l =>
             (fix items (l : list item) : option (list byte) :=
                match l with
                | [] => Some []
                | x :: l' => e ← encode_item x; r ← items l'; Some (e ++ r)
                end) l
         end;
  Some (h ++ body).

Fixpoint encode_items (l : list item) : option (list byte) :=
  match l with
  | [] => Some []
  | x :: l' => e ← encode_item x; r ← encode_items l'; Some (e ++ r)
  end.

(** What follows the head. *)
Definition item_body (i : item) : option (list byte) :=
  match i with
  | IUint _ | INint _ => Some []
  | IBytes b => Some b
  | IText s => Some (str_bytes s)
  | IArray l => encode_items l
  end.

(** The encoder a translation to items gives. *)
Definition item_Serialize {T : Type} (to_item : T -> item) : Serialize T :=
  {| serialize x := (fun e => [e]) <$> encode_item (to_item x) |}.

(** ** The program's values as items *)

Definition hash_item (h : Hash) : item := IBytes (hash_bytes h).

Definition int_item (z : Z) : item :=
  if 0 <=? z then IUint z else INint (- 1 - z).

Definition amount_item (a : Amount) : item := int_item (amount_value a).

Definition resource_item (r : ResourceAddress) : item := hash_item (resource_hash r).

Definition owner_item (n : NonFungibleAddress) : item :=
  IArray [IBytes (key_bytes (owner_key n))].

Definition arg_item (a : Arg) : item :=
  match a with
  | Workspace key => IArray [IUint 0; IBytes key]
  | Literal bytes => IArray [IUint 1; IBytes bytes]
  end.

Definition instruction_item (i : Instruction) : item :=
  match i with
  | CallFunction template_address function args =>
      IArray [IUint 0; hash_item template_address; IText function;
              IArray (map arg_item args)]
  | CallMethod component_address method args =>
      IArray [IUint 1; hash_item (component_hash component_address); IText method;
              IArray (map arg_item args)]
  | PutLastInstructionOutputOnWorkspace key => IArray [IUint 2; IBytes key]
  | CreateFreeTestCoins revealed_amount output =>
      IArray [IUint 3; amount_item revealed_amount;
              match output with
              | None => IArray []
              | Some b => IArray [IBytes b]
              end]
  end.

Definition instructions_item (l : list Instruction) : item :=
  IArray (map instruction_item l).

(** ** Induction on items *)

Section ItemInd.
Variable P : item -> Prop.
Hypothesis HUint : forall n, P (IUint n).
Hypothesis HNint : forall n, P (INint n).
Hypothesis HBytes : forall b, P (IBytes b).
Hypothesis HText : forall s, P (IText s).
Hypothesis HArray : forall l, Forall P l -> P (IArray l).

Fixpoint item_nested_ind (i : item) : P i :=
  match i with
  | IUint n => HUint n
  | INint n => HNint n
  | IBytes b => HBytes b
  | IText s => HText s
  | IArray l =>
      HArray l ((fix all (l : list item) : Forall P l :=
                   match l with
                   | [] => List.Forall_nil P
                   | x :: l' => @List.Forall_cons _ P x l' (item_nested_ind x) (all l')
                   end) l)
  end.

End ItemInd.

(** ** Lemmas: the encoder *)

Lemma encode_item_unfold i :
  encode_item i
  = (h ← cbor_head (item_major i) (item_arg i); body ← item_body i; Some (h ++ body)).
Proof.
  destruct i; reflexivity.
Qed.

Lemma encode_item_shape i e :
  encode_item i = Some e ->
  exists h body, cbor_head (item_major i) (item_arg i) = Some h
                 /\ item_body i = Some body /\ e = h ++ body.
Proof.
  rewrite encode_item_unfold. intros H.
  destruct (cbor_head _ _) as [h|]; [|discriminate].
  destruct (item_body i) as [body|]; [|discriminate].
  injection H as <-. eauto.
Qed.

Lemma item_major_range i : 0 <= item_major i < 8.
Proof. destruct i; simpl; lia. Qed.

(** The statement of prefix-freeness at one item. *)
Definition item_prefix_free (i : item) : Prop :=
  forall j ei ej (r s : list byte),
    encode_item i = Some ei -> encode_item j = Some ej ->
    ei ++ r = ej ++ s -> i = j /\ r = s.

Lemma encode_items_prefix_free l :
  Forall item_prefix_free l ->
  forall l' e e' (r s : list byte),
    length l = length l' ->
    encode_items l = Some e -> encode_items l' = Some e' ->
    e ++ r = e' ++ s -> l = l' /\ r = s.
Proof.
  induction 1 as [|x l Hx _ IH]; intros [|y l'] e e' r s Hlen He He' Heq;
    try discriminate.
  - simpl in He, He'. now simplify_eq.
  - simpl in He, He'.
    destruct (encode_item x) as [ex|] eqn:Ex; [|discriminate].
    destruct (encode_item y) as [ey|] eqn:Ey; [|discriminate].
    destruct (encode_items l) as [el|] eqn:El; [|discriminate].
    destruct (encode_items l') as [el'|] eqn:El'; [|discriminate].
    simpl in He, He'. injection He as <-. injection He' as <-.
    rewrite <- !app_assoc in Heq.
    apply (Hx y ex ey) in Heq as [<- Heq]; [|assumption..].
    apply (IH l' el el') in Heq as [<- <-]; auto.
Qed.

Lemma encode_item_prefix_free i : item_prefix_free i.
Proof.
  induction i as [n|n|b|t|l IH] using item_nested_ind;
    intros j ei ej r s (hi & bi & Hhi & Hbi & ->)%encode_item_shape
                       (hj & bj & Hhj & Hbj & ->)%encode_item_shape Heq;
    rewrite <- !app_assoc in Heq;
    apply (cbor_head_prefix_free _ _ _ _ _ _ _ _
             (item_major_range _) (item_major_range j) Hhi Hhj) in Heq
      as (Hm & Ha & Heq);
    destruct j as [n'|n'|b'|t'|l']; try discriminate Hm;
    simpl in Ha, Hbi, Hbj;
    try (injection Hbi as <-; injection Hbj as <-).
  - simpl in Heq. now subst.
  - simpl in Heq. now subst.
  - apply app_eq_len in Heq as [-> ->]; [auto | lia].
  - apply app_eq_len in Heq as [Heq ->]; [|lia].
    now apply str_bytes_inj in Heq as ->.
  - apply (encode_items_prefix_free l IH l') in Heq as [-> ->]; auto. lia.
Qed.

(** A translation to items that is injective gives a canonical
    encoder. *)
Lemma item_Canonical {T : Type} (to_item : T -> item) :
  Inj (=) (=) to_item -> @Canonical T (item_Serialize to_item).
Proof.
  intros Hinj. constructor. intros x y ex ey r s Hx Hy Heq.
  unfold encoding in Hx, Hy. simpl in Hx, Hy.
  destruct (encode_item (to_item x)) as [e1|] eqn:E1; [|discriminate].
  destruct (encode_item (to_item y)) as [e2|] eqn:E2; [|discriminate].
  simpl in Hx, Hy. rewrite app_nil_r in Hx, Hy. simplify_eq.
  apply (encode_item_prefix_free _ _ _ _ _ _ E1 E2) in Heq as [Heq _].
  now apply Hinj.
Qed.

Lemma item_encoding {T : Type} (to_item : T -> item) (x : T) :
  @encoding T (item_Serialize to_item) x = encode_item (to_item x).
Proof.
  unfold encoding. simpl. destruct (encode_item (to_item x)); simpl; [|reflexivity].
  now rewrite app_nil_r.
Qed.

(** ** Lemmas: the translations are injective *)

Lemma map_inj_list {A B : Type} (f : A -> B) :
  Inj (=) (=) f -> Inj (=) (=) (map f).
Proof.
  intros Hf l. induction l as [|x l IH]; intros [|y l'] H; try discriminate;
    [reflexivity|].
  injection H as Hx Hl. f_equal; [now apply Hf | now apply IH].
Qed.

#[export] Instance hash_item_inj : Inj (=) (=) hash_item.
Proof. intros h k [= H]. now apply Hash_ext. Qed.

#[export] Instance int_item_inj : Inj (=) (=) int_item.
Proof.
  intros x y. unfold int_item.
  destruct (0 <=? x), (0 <=? y); intros [= H]; lia.
Qed.

#[export] Instance amount_item_inj : Inj (=) (=) amount_item.
Proof. intros [x] [y] H%int_item_inj. simpl in H. now subst. Qed.

#[export] Instance resource_item_inj : Inj (=) (=) resource_item.
Proof. intros [x] [y] H%hash_item_inj. simpl in H. now subst. Qed.

#[export] Instance owner_item_inj : Inj (=) (=) owner_item.
Proof. intros [[x]] [[y]] [= H]. now subst. Qed.

#[export] Instance arg_item_inj : Inj (=) (=) arg_item.
Proof. intros [x|x] [y|y] [= H]; now subst. Qed.

#[export] Instance instruction_item_inj : Inj (=) (=) instruction_item.
Proof.
  intros [t f a|[c] m a|k|am o] [t' f' a'|[c'] m' a'|k'|am' o'] H;
    try discriminate H; simpl in H; injection H; intros;
    repeat match goal with
    | E : hash_bytes _ = hash_bytes _ |- _ => apply Hash_ext in E
    | E : map arg_item _ = map arg_item _ |- _ =>
        apply (map_inj_list _ arg_item_inj) in E
    | E : amount_item _ = amount_item _ |- _ => apply amount_item_inj in E
    end; subst; try reflexivity.
  destruct o, o'; simplify_eq; reflexivity.
Qed.

#[export] Instance instructions_item_inj : Inj (=) (=) instructions_item.
Proof.
  intros l l' [= H]. now apply (map_inj_list _ instruction_item_inj) in H.
Qed.

(** ** Lemmas: what the encoder accepts *)

Lemma encode_bytes_is_Some b :
  Z.of_nat (length b) < 18446744073709551616 -> is_Some (encode_item (IBytes b)).
Proof.
  intros H. rewrite encode_item_unfold.
  destruct (cbor_head_is_Some (item_major (IBytes b)) (item_arg (IBytes b)))
    as [h ->]; [simpl; lia | simpl; eauto].
Qed.

Lemma encode_int_is_Some z :
  - 2 ^ 64 <= z < 2 ^ 64 -> is_Some (encode_item (int_item z)).
Proof.
  intros H. rewrite encode_item_unfold. unfold int_item.
  destruct (0 <=? z) eqn:Hz;
    [apply Z.leb_le in Hz | apply Z.leb_gt in Hz];
    match goal with
    | |- context [cbor_head ?m ?n] =>
        destruct (cbor_head_is_Some m n) as [h ->]; [simpl; lia | simpl; eauto]
    end.
Qed.

(** ** The template library over this encoder *)

Definition bor_shard_id (a : SubstateAddress) (version : Z) : ShardId :=
  match a with
  | Resource r => {| shard_hash := resource_hash r |}
  | Component c => {| shard_hash := component_hash c |}
  end.

#[export] Instance BorTemplateLib : TemplateLib.
Proof.
  refine {| ResourceAddress_Serialize := item_Serialize resource_item;
            Amount_Serialize := item_Serialize amount_item;
            NonFungibleAddress_Serialize := item_Serialize owner_item;
            Instructions_Serialize := item_Serialize instructions_item;
            ShardId_from_address := bor_shard_id |}.
  - intros r Hr. unfold encodable. rewrite item_encoding.
    apply encode_bytes_is_Some. unfold hash_wf in Hr. lia.
  - intros a Ha. unfold encodable. rewrite item_encoding.
    apply encode_int_is_Some. unfold i64_range in Ha. lia.
  - intros [[k]] Hk. simpl in Hk. unfold encodable. rewrite item_encoding.
    unfold owner_item. rewrite encode_item_unfold. cbn [item_major item_arg item_body
      length encode_items key_bytes owner_key].
    destruct (encode_bytes_is_Some k) as [e ->]; [lia|]. simpl. eauto.
  - apply item_Canonical, instructions_item_inj.
Defined.
