(* ===== verification/Signature.v ===== *)
(** * Signature: the transaction signature (transaction/signature.rs)

    [sign] derives the public key of the secret key, hashes the
    instruction sequence with the short hasher into the challenge, and
    signs the challenge; an encoder that rejects the instructions and a
    primitive that rejects the challenge are panics ([expect], [unwrap]).
    [verify] is the dual the specification asks of a consumer: recompute
    the challenge of the presented instructions and check the signature
    against the presented public key.

    signature.rs hashes under the label [InstructionSignature], which the
    registry of hashing.rs does not have; the label is a variable of this
    file, and every theorem holds whichever label of the registry it
    stands for.

    The theorems: the outcome of [sign] on every branch; what is signed
    is the reference hash of the tag followed by the encoding of the
    instructions; a signature made by [sign] verifies on the same
    instructions; if it verifies on other instructions, then a collision
    of the digest or a signature accepted on a message it was not made
    for is at hand; a challenge is never an address unless the digest
    collides. *)

From Stdlib Require Import ZArith List String Lia.
From stdpp Require Import base decidable option list.
From coqutil Require Import Byte.
From S2P Require Import Prelude Labels Digest Types Hasher Component Instruction Keys Bor.

Local Open Scope outcome_scope.

(** ** Definitions *)

Module TransactionSignature.
Section Defs.
Context {Blake2b_U32 : Digest 32} {SC : Schnorr} {TL : TemplateLib}.
Variable InstructionSignature : EngineHashDomainLabel.

Record t : Type := {
  tx_public_key : RistrettoPublicKey;
  tx_signature : Signature
}.

Definition new (public_key : RistrettoPublicKey) (signature : Signature) : t :=
  {| tx_public_key := public_key; tx_signature := signature |}.

(** The challenge of an instruction sequence. *)
Definition challenge (instructions : list Instruction) : outcome Hash :=
  let? h := TariHasher32.chain (hasher InstructionSignature) instructions in
  Ok (TariHasher32.result h).

Definition sign (secret_key : RistrettoSecretKey) (nonce : Nonce)
  (instructions : list Instruction) : outcome t :=
  let public_key := from_secret_key secret_key in
  let? challenge := challenge instructions in
  let? signature :=
    expect SigningFailure (sign_message secret_key nonce (hash_bytes challenge)) in
  Ok {| tx_signature := signature; tx_public_key := public_key |}.

Definition signature (self : t) : Signature := tx_signature self.

Definition public_key (self : t) : RistrettoPublicKey := tx_public_key self.

(** The verifier's side: recompute the challenge and check. *)
Definition verify (self : t) (instructions : list Instruction) : outcome unit :=
  let? challenge := challenge instructions in
  if verify_message (signature self) (public_key self) (hash_bytes challenge)
  then Ok tt else Err InvalidSignature.

(** The message that is signed for instructions with the encoding [e]. *)
Definition signed_message (e : list byte) : list byte :=
  digest_hash (n := 32) (preimage InstructionSignature [e]).

End Defs.
End TransactionSignature.

(** ** Lemmas *)

Section SignatureLemmas.
Context {Blake2b_U32 : Digest 32} {SC : Schnorr} {TL : TemplateLib}.
Variable L : EngineHashDomainLabel.

Import TransactionSignature.

Lemma challenge_Some instructions e :
  encoding instructions = Some e ->
  challenge L instructions = Ok (from_array (signed_message L e)).
Proof.
  intros He. unfold challenge, hasher.
  destruct (chain32_preimage _ instructions L [] e (hasher32_holds L) He)
    as (h & -> & Hh).
  rewrite obind_ok. f_equal. now apply result32_holds.
Qed.

Lemma challenge_None instructions :
  encoding instructions = None -> challenge L instructions = Panic EncodingFault.
Proof.
  intros He. unfold challenge, hasher.
  now rewrite chain32_update, update32_panic.
Qed.

Lemma challenge_inv instructions c :
  challenge L instructions = Ok c ->
  exists e, encoding instructions = Some e /\ c = from_array (signed_message L e).
Proof.
  destruct (encoding instructions) as [e|] eqn:He.
  - rewrite (challenge_Some _ e He). intros [= <-]. eauto.
  - now rewrite challenge_None.
Qed.

Lemma signed_message_length e : length (signed_message L e) = 32.
Proof. apply digest_hash_length. Qed.

(** The encodings of two instruction sequences that differ give
    different preimages. *)
Lemma signed_preimage_inj (i1 i2 : list Instruction) e1 e2 :
  encoding i1 = Some e1 -> encoding i2 = Some e2 ->
  preimage L [e1] = preimage L [e2] -> i1 = i2.
Proof.
  intros H1 H2 H. unfold preimage in H. apply app_inv_head in H.
  cbn [concat] in H. eapply canonical_prefix_free; eauto.
Qed.

Lemma sign_unfold k r instructions e :
  encoding instructions = Some e ->
  sign L k r instructions
  = match sign_message k r (signed_message L e) with
    | Some s => Ok (new (from_secret_key k) s)
    | None => Panic SigningFailure
    end.
Proof.
  intros He. unfold sign. rewrite (challenge_Some _ e He), obind_ok.
  cbn [hash_bytes from_array]. now destruct (sign_message _ _ _).
Qed.

Lemma sign_inv k r instructions ts :
  sign L k r instructions = Ok ts ->
  exists e, encoding instructions = Some e
    /\ public_key ts = from_secret_key k
    /\ sign_message k r (signed_message L e) = Some (signature ts).
Proof.
  destruct (encoding instructions) as [e|] eqn:He.
  - rewrite (sign_unfold _ _ _ e He).
    destruct (sign_message _ _ _) as [s|] eqn:Hs; [|discriminate].
    intros [= <-]. exists e. auto.
  - unfold sign. now rewrite challenge_None.
Qed.

Lemma verify_unfold ts instructions e :
  encoding instructions = Some e ->
  verify L ts instructions
  = if verify_message (signature ts) (public_key ts) (signed_message L e)
    then Ok tt else Err InvalidSignature.
Proof.
  intros He. unfold verify. now rewrite (challenge_Some _ e He), obind_ok.
Qed.

Lemma sign_cases k r instructions :
  (exists ts, sign L k r instructions = Ok ts)
  \/ sign L k r instructions = Panic EncodingFault
  \/ sign L k r instructions = Panic SigningFailure.
Proof.
  destruct (encoding instructions) as [e|] eqn:He.
  - rewrite (sign_unfold _ _ _ e He). destruct (sign_message _ _ _); eauto.
  - right; left. unfold sign. now rewrite challenge_None.
Qed.

Lemma verify_signed k r instructions ts :
  sign L k r instructions = Ok ts -> verify L ts instructions = Ok tt.
Proof.
  intros (e & He & Hpk & Hs)%sign_inv.
  rewrite (verify_unfold _ _ e He), Hpk. now rewrite (sign_verify _ _ _ _ Hs).
Qed.

Lemma sign_encodable `{!SchnorrTotal SC} k r instructions :
  encodable instructions -> exists ts, sign L k r instructions = Ok ts.
Proof.
  intros [e He]. rewrite (sign_unfold _ _ _ e He).
  destruct (sign_total k r (signed_message L e) (signed_message_length e)) as [s ->].
  eauto.
Qed.

(** ** Theorems *)

(** C4: the outcome of [sign] on every branch.  When the encoder
    rejects the instructions, [sign] panics with [EncodingFault]; when
    the primitive rejects the challenge, it panics with [SigningFailure];
    otherwise it returns the public key of the secret key and the
    signature of the reference hash of the tag followed by the encoding
    of the instructions.  It never returns an error. *)
Theorem sign_outcome (k : RistrettoSecretKey) (r : Nonce)
  (instructions : list Instruction) :
  sign L k r instructions
  = match encoding instructions with
    | None => Panic EncodingFault
    | Some e =>
        match sign_message k r
                (digest_hash (n := 32)
                   (domain_separation_tag TariEngineHashDomain (as_label L) ++ e)) with
        | Some s => Ok (new (from_secret_key k) s)
        | None => Panic SigningFailure
        end
    end.
Proof.
  destruct (encoding instructions) as [e|] eqn:He.
  - rewrite (sign_unfold _ _ _ e He). unfold signed_message, preimage.
    cbn [concat]. now rewrite app_nil_r.
  - unfold sign. now rewrite challenge_None.
Qed.

(** C26: signing succeeds on every instruction sequence the encoder
    accepts, when the primitive signs every 32-byte message: the
    challenge is 32 bytes. *)
Theorem sign_total_encodable `{!SchnorrTotal SC} (k : RistrettoSecretKey) (r : Nonce)
  (instructions : list Instruction) :
  encodable instructions ->
  exists ts, sign L k r instructions = Ok ts /\ verify L ts instructions = Ok tt.
Proof.
  intros [ts Hs]%(sign_encodable k r). exists ts.
  split; [assumption | now apply (verify_signed k r)].
Qed.

(** C5: signature round trip.  What [sign] returns carries the public
    key of the secret key and verifies on the instructions it was made
    for. *)
Theorem sign_verify_roundtrip (k : RistrettoSecretKey) (r : Nonce)
  (instructions : list Instruction) (ts : t) :
  sign L k r instructions = Ok ts ->
  public_key ts = from_secret_key k /\ verify L ts instructions = Ok tt.
Proof.
  intros H. split; [|now apply (verify_signed k r)].
  now apply sign_inv in H as (e & _ & Hpk & _).
Qed.

(** C7: a signature is bound to its instructions.  If the signature
    [sign] returns for one sequence verifies on another, then two
    different byte strings with the same Blake2b digest are at hand, or
    the primitive accepts the signature on a message other than the one
    it signed. *)
Theorem verify_other_instructions (k : RistrettoSecretKey) (r : Nonce)
  (i1 i2 : list Instruction) (ts : t) :
  sign L k r i1 = Ok ts -> verify L ts i2 = Ok tt -> i1 <> i2 ->
  exists e1 e2, encoding i1 = Some e1 /\ encoding i2 = Some e2 /\
    (Collision (n := 32) (preimage L [e1]) (preimage L [e2])
     \/ (signed_message L e1 <> signed_message L e2
         /\ sign_message k r (signed_message L e1) = Some (signature ts)
         /\ verify_message (signature ts) (from_secret_key k) (signed_message L e2)
            = true)).
Proof.
  intros (e1 & He1 & Hpk & Hs)%sign_inv Hv Hne.
  destruct (encoding i2) as [e2|] eqn:He2;
    [|unfold verify in Hv; now rewrite challenge_None in Hv].
  rewrite (verify_unfold _ _ e2 He2), Hpk in Hv.
  destruct (verify_message _ _ _) eqn:Hvm; [|discriminate].
  exists e1, e2. repeat split; try assumption.
  destruct (decide (signed_message L e1 = signed_message L e2)) as [Heq|Hd].
  - left. split; [|exact Heq].
    intros Hp. apply Hne. eapply signed_preimage_inj; eauto.
  - right. auto.
Qed.

(** C27: the outcome of [verify] on every branch: a panic when the
    encoder rejects the instructions, [InvalidSignature] when the
    primitive rejects, success otherwise. *)
Theorem verify_outcome (ts : t) (instructions : list Instruction) :
  verify L ts instructions
  = match encoding instructions with
    | None => Panic EncodingFault
    | Some e =>
        if verify_message (signature ts) (public_key ts) (signed_message L e)
        then Ok tt else Err InvalidSignature
    end.
Proof.
  destruct (encoding instructions) as [e|] eqn:He.
  - now apply verify_unfold.
  - unfold verify. now rewrite challenge_None.
Qed.

(** C28: a challenge is no address.  When the label of signatures is not
    the label of component addresses, a challenge that equals a derived
    address exhibits two different byte strings with the same Blake2b
    digest. *)
Theorem challenge_not_address (instructions : list Instruction)
  (template_address : TemplateAddress) (component_id : Hash) (c : Hash) :
  L <> Labels.ComponentAddress ->
  challenge L instructions = Ok c ->
  new_component_address_from_parts template_address component_id
  = Ok (ComponentAddress_new c) ->
  exists m1 m2, Collision (n := 32) m1 m2
    /\ c = from_array (digest_hash (n := 32) m1).
Proof.
  intros Hne (e & He & ->)%challenge_inv Ha.
  apply new_component_address_inv in Ha as (et & ei & _ & _ & Ha).
  exists (preimage L [e]), (preimage Labels.ComponentAddress [et; ei]).
  split; [split|reflexivity].
  - unfold preimage. intros [? _]%engine_tag_app_inv. contradiction.
  - unfold ComponentAddress_new, from_array in Ha. now injection Ha.
Qed.

End SignatureLemmas.

(** ** Witnesses

    The theorems at concrete inputs, with the window digest (which has
    collisions: a digest is the last 32 bytes of the stream), the toy
    primitive and the reference encoder. *)

Import TransactionSignature.

Definition sample_key32 : list byte := replicate 32 Byte.x07.

Definition sample_instructions : list Instruction :=
  [PutLastInstructionOutputOnWorkspace (str_bytes "bucket")].

(** Two sequences whose encodings end with the same 36 bytes. *)
Definition sample_instructions_a : list Instruction :=
  [PutLastInstructionOutputOnWorkspace (str_bytes "a");
   PutLastInstructionOutputOnWorkspace sample_key32].

Definition sample_instructions_b : list Instruction :=
  [PutLastInstructionOutputOnWorkspace (str_bytes "b");
   PutLastInstructionOutputOnWorkspace sample_key32].

Definition window_sign (instructions : list Instruction) : outcome t :=
  sign (Blake2b_U32 := WindowDigest 32) (SC := ToySchnorr) (TL := BorTemplateLib)
    Labels.TransactionSignature 5%Z 11%Z instructions.

Definition window_verify (ts : t) (instructions : list Instruction) : outcome unit :=
  verify (Blake2b_U32 := WindowDigest 32) (SC := ToySchnorr) (TL := BorTemplateLib)
    Labels.TransactionSignature ts instructions.

Definition sample_signature_a : t (SC := ToySchnorr) :=
  Eval vm_compute in
    match window_sign sample_instructions_a with
    | Ok ts => ts
    | _ => new 0%Z (0%Z, 0%Z)
    end.

Lemma sign_total_encodable_witness :
  exists ts, window_sign sample_instructions = Ok ts
             /\ window_verify ts sample_instructions = Ok tt.
Proof.
  apply (sign_total_encodable (Blake2b_U32 := WindowDigest 32) (SC := ToySchnorr)
           (TL := BorTemplateLib) Labels.TransactionSignature 5%Z 11%Z
           sample_instructions).
  vm_compute. eauto.
Defined.

Lemma sign_verify_roundtrip_witness :
  public_key sample_signature_a = from_secret_key (Schnorr := ToySchnorr) 5%Z
  /\ window_verify sample_signature_a sample_instructions_a = Ok tt.
Proof.
  apply (sign_verify_roundtrip (Blake2b_U32 := WindowDigest 32) (SC := ToySchnorr)
           (TL := BorTemplateLib) Labels.TransactionSignature 5%Z 11%Z).
  reflexivity.
Defined.

Lemma verify_other_instructions_witness :
  exists e1 e2,
    encoding sample_instructions_a = Some e1 /\
    encoding sample_instructions_b = Some e2 /\
    (Collision (D := WindowDigest 32)
       (preimage Labels.TransactionSignature [e1])
       (preimage Labels.TransactionSignature [e2])
     \/ (signed_message (Blake2b_U32 := WindowDigest 32) Labels.TransactionSignature e1
         <> signed_message (Blake2b_U32 := WindowDigest 32) Labels.TransactionSignature e2
         /\ sign_message (Schnorr := ToySchnorr) 5%Z 11%Z
              (signed_message (Blake2b_U32 := WindowDigest 32)
                 Labels.TransactionSignature e1)
            = Some (signature sample_signature_a)
         /\ verify_message (Schnorr := ToySchnorr) (signature sample_signature_a)
              (from_secret_key (Schnorr := ToySchnorr) 5%Z)
              (signed_message (Blake2b_U32 := WindowDigest 32)
                 Labels.TransactionSignature e2)
            = true)).
Proof.
  apply (verify_other_instructions (Blake2b_U32 := WindowDigest 32) (SC := ToySchnorr)
           (TL := BorTemplateLib) Labels.TransactionSignature 5%Z 11%Z
           sample_instructions_a sample_instructions_b sample_signature_a).
  - reflexivity.
  - reflexivity.
  - discriminate.
Defined.

Lemma challenge_not_address_witness :
  exists m1 m2, Collision (D := WindowDigest 32) m1 m2
    /\ from_array sample_key32
       = from_array (digest_hash (D := WindowDigest 32) m1).
Proof.
  apply (challenge_not_address (Blake2b_U32 := WindowDigest 32) (TL := BorTemplateLib)
           Labels.TransactionSignature
           [PutLastInstructionOutputOnWorkspace sample_key32]
           ACCOUNT_TEMPLATE_ADDRESS (from_array sample_key32)).
  - discriminate.
  - reflexivity.
  - reflexivity.
Defined.
