(* ===== verification/Builder.v ===== *)
(** * Builder: transactions and their builder

    The builder of lib.rs ([Transaction::builder()], [with_fee_instructions],
    [with_input_refs], [sign], [build]) lives in transaction/ outside the
    sources at hand; it is modelled from its specification: a machine
    with the states [Empty], [Assembling] and [Signed].  The setters
    replace a field and are refused once signed; [sign] signs the fee
    instructions with [TransactionSignature.sign] and is refused once
    signed; [build] is refused before [sign].  The methods return the
    builder, not a result, so a refusal is a panic ([BuilderMisuse]).

    The machine is given twice: as functions ([apply]) and as a step
    relation ([step]); they agree.  The phases with [phase_step] are the
    abstract machine the builder refines.  The invariant of reachable
    builders: a signed builder carries a signature [sign] made for its
    fee instructions; so a built transaction verifies. *)

From Stdlib Require Import ZArith List String Lia.
From stdpp Require Import base decidable option list.
From coqutil Require Import Byte.
From S2P Require Import Prelude Labels Digest Types Hasher Instruction Keys Bor Signature.

Local Open Scope outcome_scope.

(** ** Transactions *)

Module Transaction.
Section Defs.
Context {SC : Schnorr}.

Record t : Type := {
  fee_instructions : list Instruction;
  instructions : list Instruction;
  signature : TransactionSignature.t;
  input_refs : list ShardId
}.

End Defs.
End Transaction.

(** ** The builder *)

Module TransactionBuilder.

(** The phases of the abstract machine. *)
Inductive phase : Type := PEmpty | PAssembling | PSigned.

#[global] Instance phase_eq_dec : EqDecision phase.
Proof. solve_decision. Defined.

Section Defs.
Context {Blake2b_U32 : Digest 32} {SC : Schnorr} {TL : TemplateLib}.
Variable InstructionSignature : EngineHashDomainLabel.

Inductive t : Type :=
  | Empty
  | Assembling (fee_instructions instructions : list Instruction)
      (input_refs : list ShardId)
  | Signed (fee_instructions instructions : list Instruction)
      (input_refs : list ShardId) (signature : TransactionSignature.t).

Definition fee_instructions (b : t) : list Instruction :=
  match b with
  | Empty => []
  | Assembling f _ _ | Signed f _ _ _ => f
  end.

Definition instructions (b : t) : list Instruction :=
  match b with
  | Empty => []
  | Assembling _ i _ | Signed _ i _ _ => i
  end.

Definition input_refs (b : t) : list ShardId :=
  match b with
  | Empty => []
  | Assembling _ _ r | Signed _ _ r _ => r
  end.

Definition phase_of (b : t) : phase :=
  match b with
  | Empty => PEmpty
  | Assembling _ _ _ => PAssembling
  | Signed _ _ _ _ => PSigned
  end.

(** [Transaction::builder()]. *)
Definition builder : t := Empty.

Definition with_fee_instructions (fee : list Instruction) (b : t) : outcome t :=
  match b with
  | Signed _ _ _ _ => Panic BuilderMisuse
  | _ => Ok (Assembling fee (instructions b) (input_refs b))
  end.

Definition with_instructions (instrs : list Instruction) (b : t) : outcome t :=
  match b with
  | Signed _ _ _ _ => Panic BuilderMisuse
  | _ => Ok (Assembling (fee_instructions b) instrs (input_refs b))
  end.

Definition with_input_refs (refs : list ShardId) (b : t) : outcome t :=
  match b with
  | Signed _ _ _ _ => Panic BuilderMisuse
  | _ => Ok (Assembling (fee_instructions b) (instructions b) refs)
  end.

Definition sign (secret_key : RistrettoSecretKey) (nonce : Nonce) (b : t) : outcome t :=
  match b with
  | Signed _ _ _ _ => Panic BuilderMisuse
  | _ =>
      let? signature :=
        TransactionSignature.sign InstructionSignature secret_key nonce
          (fee_instructions b) in
      Ok (Signed (fee_instructions b) (instructions b) (input_refs b) signature)
  end.

Definition build (b : t) : outcome Transaction.t :=
  match b with
  | Signed f i r s =>
      Ok {| Transaction.fee_instructions := f; Transaction.instructions := i;
            Transaction.signature := s; Transaction.input_refs := r |}
  | _ => Panic BuilderMisuse
  end.

(** *** The machine as operations and steps *)

Inductive op : Type :=
  | WithFeeInstructions (fee : list Instruction)
  | WithInstructions (instrs : list Instruction)
  | WithInputRefs (refs : list ShardId)
  | Sign (secret_key : RistrettoSecretKey) (nonce : Nonce).

Definition apply (o : op) (b : t) : outcome t :=
  match o with
  | WithFeeInstructions fee => with_fee_instructions fee b
  | WithInstructions instrs => with_instructions instrs b
  | WithInputRefs refs => with_input_refs refs b
  | Sign k r => sign k r b
  end.

(** A sequence of operations, from left to right, up to the first that
    fails. *)
Fixpoint run (ops : list op) (b : t) : outcome t :=
  match ops with
  | [] => Ok b
  | o :: ops' => let? b' := apply o b in run ops' b'
  end.

Inductive step : t -> op -> t -> Prop :=
  | step_fee b fee :
      phase_of b <> PSigned ->
      step b (WithFeeInstructions fee) (Assembling fee (instructions b) (input_refs b))
  | step_instructions b instrs :
      phase_of b <> PSigned ->
      step b (WithInstructions instrs)
        (Assembling (fee_instructions b) instrs (input_refs b))
  | step_refs b refs :
      phase_of b <> PSigned ->
      step b (WithInputRefs refs)
        (Assembling (fee_instructions b) (instructions b) refs)
  | step_sign b k r s :
      phase_of b <> PSigned ->
      TransactionSignature.sign InstructionSignature k r (fee_instructions b) = Ok s ->
      step b (Sign k r) (Signed (fee_instructions b) (instructions b) (input_refs b) s).

(** The builders a program can hold: those the operations make of a
    fresh builder. *)
Inductive reachable : t -> Prop :=
  | reachable_builder : reachable builder
  | reachable_step b o b' : reachable b -> step b o b' -> reachable b'.

(** *** The abstract machine *)

Definition is_sign (o : op) : bool :=
  match o with Sign _ _ => true | _ => false end.

Definition phase_step (p : phase) (o : op) : option phase :=
  match p with
  | PSigned => None
  | _ => Some (if is_sign o then PSigned else PAssembling)
  end.

(** *** The invariant *)

(** A signed builder carries a signature [sign] made for its fee
    instructions. *)
Definition signed_ok (b : t) : Prop :=
  match b with
  | Signed f _ _ s =>
      exists k r, TransactionSignature.sign InstructionSignature k r f = Ok s
  | _ => True
  end.

End Defs.
End TransactionBuilder.

(** ** Lemmas *)

Section BuilderLemmas.
Context {Blake2b_U32 : Digest 32} {SC : Schnorr} {TL : TemplateLib}.
Variable L : EngineHashDomainLabel.

Import TransactionBuilder.

Implicit Types (b : t) (o : op) (ops : list op).

Lemma apply_signed o b : phase_of b = PSigned -> apply L o b = Panic BuilderMisuse.
Proof. destruct b; try discriminate. now destruct o. Qed.

Lemma setter_unfold o b :
  phase_of b <> PSigned -> is_sign o = false ->
  exists f i r, apply L o b = Ok (Assembling f i r).
Proof. destruct b, o; try discriminate; try contradiction; simpl; eauto. Qed.

Lemma sign_unsigned k r b :
  phase_of b <> PSigned ->
  sign L k r b
  = let? s := TransactionSignature.sign L k r (fee_instructions b) in
    Ok (Signed (fee_instructions b) (instructions b) (input_refs b) s).
Proof. destruct b; try contradiction; reflexivity. Qed.

Lemma apply_Ok_unsigned o b b' : apply L o b = Ok b' -> phase_of b <> PSigned.
Proof. intros H Hp. now rewrite apply_signed in H. Qed.

Lemma step_apply b o b' : step L b o b' -> apply L o b = Ok b'.
Proof.
  intros [b0 f Hp|b0 i Hp|b0 r Hp|b0 k r s Hp Hs]; cbn [apply];
    try (destruct b0; [reflexivity..|contradiction]).
  now rewrite sign_unsigned, Hs.
Qed.

Lemma apply_step b o b' : apply L o b = Ok b' -> step L b o b'.
Proof.
  intros H. pose proof (apply_Ok_unsigned _ _ _ H) as Hp.
  destruct o as [f|i|r|k r]; cbn [apply] in H.
  - destruct b; try contradiction; injection H as <-; now constructor.
  - destruct b; try contradiction; injection H as <-; now constructor.
  - destruct b; try contradiction; injection H as <-; now constructor.
  - rewrite sign_unsigned in H by assumption.
    apply obind_ok_inv in H as (s & Hs & [= <-]). now constructor.
Qed.

Lemma run_app ops1 ops2 b :
  run L (ops1 ++ ops2) b = let? b' := run L ops1 b in run L ops2 b'.
Proof.
  revert b. induction ops1 as [|o ops1 IH]; intros b; [reflexivity|].
  cbn [run app]. destruct (apply L o b); simpl; auto.
Qed.

Lemma run_signed ops b b' :
  phase_of b = PSigned -> run L ops b = Ok b' -> ops = [] /\ b' = b.
Proof.
  intros Hp. destruct ops as [|o ops]; simpl.
  - intros [= <-]. auto.
  - rewrite apply_signed by assumption. discriminate.
Qed.

Lemma reachable_run ops b b' :
  reachable L b -> run L ops b = Ok b' -> reachable L b'.
Proof.
  revert b. induction ops as [|o ops IH]; intros b Hb; simpl.
  - now intros [= <-].
  - intros (b1 & H1 & H2)%obind_ok_inv. apply (IH b1); [|assumption].
    exact (reachable_step L b o b1 Hb (apply_step _ _ _ H1)).
Qed.

Lemma signed_ok_step b o b' : signed_ok L b -> step L b o b' -> signed_ok L b'.
Proof. intros _ [| | |b0 k r s _ Hs]; simpl; eauto. Qed.

Lemma signed_ok_reachable b : reachable L b -> signed_ok L b.
Proof.
  induction 1 as [|b o b' _ IH Hs]; [exact I|].
  eapply signed_ok_step; eassumption.
Qed.

Lemma build_inv b tx :
  build b = Ok tx ->
  b = Signed (Transaction.fee_instructions tx) (Transaction.instructions tx)
        (Transaction.input_refs tx) (Transaction.signature tx).
Proof. destruct b; try discriminate. now intros [= <-]. Qed.

Lemma sign_Ok_phase k r b b' : sign L k r b = Ok b' -> phase_of b' = PSigned.
Proof.
  intros H. pose proof (apply_Ok_unsigned (Sign k r) _ _ H) as Hp.
  rewrite sign_unsigned in H by assumption.
  now apply obind_ok_inv in H as (s & _ & [= <-]).
Qed.

(** Once something but a signature has been applied, the builder is
    assembling. *)
Lemma setter_phase o b b' :
  apply L o b = Ok b' -> is_sign o = false -> phase_of b' = PAssembling.
Proof.
  intros H Ho. pose proof (apply_Ok_unsigned _ _ _ H) as Hp.
  destruct (setter_unfold o b Hp Ho) as (f & i & r & E).
  rewrite E in H. now injection H as <-.
Qed.

Lemma run_unsigned_no_sign ops b b' :
  run L ops b = Ok b' ->
  (phase_of b' <> PSigned -> forallb (fun o => negb (is_sign o)) ops = true)
  /\ (phase_of b' = PSigned -> phase_of b <> PSigned ->
      exists ops' k r, ops = ops' ++ [Sign k r]
        /\ forallb (fun o => negb (is_sign o)) ops' = true).
Proof.
  revert b. induction ops as [|o ops IH]; intros b; cbn [run].
  - intros [= <-]. split; [reflexivity | congruence].
  - intros (b1 & H1 & H2)%obind_ok_inv. destruct (is_sign o) eqn:Ho.
    + destruct o as [| | |k r]; try discriminate.
      apply sign_Ok_phase in H1 as Hp1.
      apply (run_signed _ _ _ Hp1) in H2 as [-> ->].
      split; [congruence|]. intros _ _. now exists [], k, r.
    + pose proof (setter_phase _ _ _ H1 Ho) as Hp1.
      destruct (IH _ H2) as [IH1 IH2]. split.
      * intros Hn. cbn [forallb]. now rewrite Ho, IH1.
      * intros Hs _. destruct IH2 as (ops' & k & r & -> & Hf);
          [assumption | congruence|].
        exists (o :: ops'), k, r. cbn [forallb]. now rewrite Ho, Hf.
Qed.

(** ** Theorems *)

(** C8: the builder refines the three-phase machine.  Where the
    abstract machine has no move (the phase is Signed) the operation
    panics with [BuilderMisuse]; where it has one, the operation returns
    a builder in the phase the abstract machine moves to, or it is a
    signature and the encoder or the primitive refused. *)
Theorem builder_refines_phases o b :
  match phase_step (phase_of b) o with
  | None => apply L o b = Panic BuilderMisuse
  | Some p =>
      (exists b', apply L o b = Ok b' /\ phase_of b' = p)
      \/ (is_sign o = true
          /\ (apply L o b = Panic EncodingFault
              \/ apply L o b = Panic SigningFailure))
  end.
Proof.
  destruct (decide (phase_of b = PSigned)) as [Hp|Hp].
  - rewrite Hp. now apply apply_signed.
  - assert (phase_step (phase_of b) o
            = Some (if is_sign o then PSigned else PAssembling)) as ->
      by (unfold phase_step; now destruct (phase_of b)).
    destruct (is_sign o) eqn:Ho.
    + destruct o as [| | |k r]; try discriminate. cbn [apply].
      rewrite sign_unsigned by assumption.
      destruct (sign_cases L k r (fee_instructions b)) as [[s ->]|[-> | ->]];
        simpl; eauto.
    + left. destruct (setter_unfold o b Hp Ho) as (f & i & r & ->). eauto.
Qed.

(** C9: the invariant of the builder.  Whatever operations a program
    runs on a fresh builder, a transaction [build] then returns carries
    a signature that verifies on its fee instructions and was made by
    [sign] for them: a transaction is never built unsigned or signed for
    other instructions. *)
Theorem reachable_build_verifies ops b tx :
  run L ops builder = Ok b -> build b = Ok tx ->
  TransactionSignature.verify L (Transaction.signature tx)
    (Transaction.fee_instructions tx) = Ok tt
  /\ exists k r,
       TransactionSignature.sign L k r (Transaction.fee_instructions tx)
       = Ok (Transaction.signature tx).
Proof.
  intros Hr Hb%build_inv.
  apply (reachable_run ops builder b (reachable_builder L)) in Hr.
  apply signed_ok_reachable in Hr. rewrite Hb in Hr.
  destruct Hr as (k & r & Hs). split; [|eauto].
  now apply (verify_signed L k r).
Qed.

(** C22: signing happens at most once and last.  A sequence of
    operations that runs from a fresh builder to a signed one is a
    sequence without signatures followed by one signature. *)
Theorem run_sign_last ops b :
  run L ops builder = Ok b -> phase_of b = PSigned ->
  exists ops' k r, ops = ops' ++ [Sign k r]
    /\ forallb (fun o => negb (is_sign o)) ops' = true.
Proof.
  intros H Hp. apply run_unsigned_no_sign in H as [_ H].
  apply H; [assumption | discriminate].
Qed.

(** C23: a signed builder is final.  After [sign] has succeeded, every
    operation, a second [sign] included, panics with [BuilderMisuse]. *)
Theorem signed_terminal k r b b' o :
  sign L k r b = Ok b' -> apply L o b' = Panic BuilderMisuse.
Proof. intros H%sign_Ok_phase. now apply apply_signed. Qed.

End BuilderLemmas.

(** ** Witnesses *)

Import TransactionBuilder.

Definition sample_ops : list (op (SC := ToySchnorr)) :=
  [WithFeeInstructions sample_instructions; WithInputRefs []; Sign 5%Z 11%Z].

Definition window_run (ops : list (op (SC := ToySchnorr))) (b : t) : outcome t :=
  run (Blake2b_U32 := WindowDigest 32) (TL := BorTemplateLib)
    Labels.TransactionSignature ops b.

Definition sample_builder : t (SC := ToySchnorr) :=
  Eval vm_compute in
    match window_run sample_ops builder with
    | Ok b => b
    | _ => Empty
    end.

Definition sample_transaction : Transaction.t (SC := ToySchnorr) :=
  {| Transaction.fee_instructions := fee_instructions sample_builder;
     Transaction.instructions := instructions sample_builder;
     Transaction.signature :=
       match sample_builder with
       | Signed _ _ _ s => s
       | _ => TransactionSignature.new 0%Z (0%Z, 0%Z)
       end;
     Transaction.input_refs := input_refs sample_builder |}.

Lemma reachable_build_verifies_witness :
  TransactionSignature.verify (Blake2b_U32 := WindowDigest 32) (TL := BorTemplateLib)
    Labels.TransactionSignature (Transaction.signature sample_transaction)
    (Transaction.fee_instructions sample_transaction) = Ok tt
  /\ exists k r,
       TransactionSignature.sign (Blake2b_U32 := WindowDigest 32) (TL := BorTemplateLib)
         Labels.TransactionSignature k r (Transaction.fee_instructions sample_transaction)
       = Ok (Transaction.signature sample_transaction).
Proof.
  apply (reachable_build_verifies (Blake2b_U32 := WindowDigest 32)
           (TL := BorTemplateLib) Labels.TransactionSignature sample_ops
           sample_builder);
    reflexivity.
Defined.

Lemma run_sign_last_witness :
  exists ops' k r, sample_ops = ops' ++ [Sign k r]
    /\ forallb (fun o => negb (is_sign o)) ops' = true.
Proof.
  apply (run_sign_last (Blake2b_U32 := WindowDigest 32) (TL := BorTemplateLib)
           Labels.TransactionSignature sample_ops sample_builder); reflexivity.
Defined.

Lemma signed_terminal_witness :
  apply (Blake2b_U32 := WindowDigest 32) (TL := BorTemplateLib)
    Labels.TransactionSignature (Sign (SC := ToySchnorr) 6%Z 12%Z) sample_builder
  = Panic BuilderMisuse.
Proof.
  apply (signed_terminal (Blake2b_U32 := WindowDigest 32) (SC := ToySchnorr)
           (TL := BorTemplateLib) Labels.TransactionSignature 5%Z 11%Z
           (Assembling sample_instructions [] [])).
  reflexivity.
Defined.
