(* ===== verification/Wallet.v ===== *)
(** * Wallet: the exposed operations (lib.rs)

    The six functions lib.rs exports to the binding layer.  A [?] on a
    result is a returned error: [MalformedInput] for strings and values
    that do not parse, [EncodingFault] for a transaction the binding
    layer cannot serialize.  An [unwrap] is a panic.  The values crossing
    the boundary ([JsValue]) and their conversions are the interface
    [WasmBindgen].  Signing draws a nonce; it is the last argument of the
    functions that sign.

    The theorems: what each function returns on every path; the
    instruction sequences of the transfer and of the faucet transaction,
    in their order; the signature of every transaction returned verifies
    on its fee instructions; the builder is never misused and the
    [unwrap] of a public key's bytes never panics; a public key the
    library exports is always accepted by the address derivation. *)

From Stdlib Require Import ZArith List String Lia.
From stdpp Require Import base decidable option list.
From coqutil Require Import Byte.
From S2P Require Import Prelude Labels Digest Types Hasher Component Instruction Keys Bor.
From S2P Require Import Signature Builder.

Local Open Scope outcome_scope.

(** ** The binding layer *)

Class WasmBindgen {SC : Schnorr} : Type := {
  JsValue : Type;
  (** [serde_wasm_bindgen::from_value] at the two types lib.rs reads. *)
  instructions_from_value : JsValue -> option (list Instruction);
  input_refs_from_value : JsValue -> option (list ShardId);
  (** [serde_wasm_bindgen::to_value] of a transaction. *)
  transaction_to_value : Transaction.t -> option JsValue
}.

(** ** Definitions *)

Section Wallet.
Context {Blake2b_U32 : Digest 32} {SC : Schnorr} {TL : TemplateLib} {WB : WasmBindgen}.
Variable InstructionSignature : EngineHashDomainLabel.

Definition build_ristretto_private_key (ecdsa_private_key : string) : outcome string :=
  let? private_key := RistrettoSecretKey_from_hex ecdsa_private_key in
  Ok (RistrettoSecretKey_to_hex private_key).

Definition build_ristretto_public_key (ecdsa_private_key : string) : outcome string :=
  let? private_key := RistrettoSecretKey_from_hex ecdsa_private_key in
  let public_key := from_secret_key private_key in
  Ok (RistrettoPublicKey_to_hex public_key).

Definition get_account_component_address (public_key : string) : outcome string :=
  let? account_address := get_account_address_from_public_key public_key in
  Ok (ComponentAddress_to_string account_address).

Definition create_transaction (account_private_key_hex : string)
  (instructions_js input_refs_js : JsValue) (nonce : Nonce) : outcome JsValue :=
  let? account_private_key := RistrettoSecretKey_from_hex account_private_key_hex in
  let? instructions := ok_or MalformedInput (instructions_from_value instructions_js) in
  let? input_refs := ok_or MalformedInput (input_refs_from_value input_refs_js) in
  let? b := TransactionBuilder.with_fee_instructions instructions
              TransactionBuilder.builder in
  let? b := TransactionBuilder.with_input_refs input_refs b in
  let? b := TransactionBuilder.sign InstructionSignature account_private_key nonce b in
  let? transaction := TransactionBuilder.build b in
  ok_or EncodingFault (transaction_to_value transaction).

Definition create_transfer_transaction (source_private_key : string)
  (destination_public_key_hex : string) (create_destination_account : bool)
  (resource_address : string) (amount fee : Z) (nonce : Nonce) : outcome JsValue :=
  let? source_private_key := RistrettoSecretKey_from_hex source_private_key in
  let source_public_key := from_secret_key source_private_key in
  let? source_account_address :=
    get_account_address_from_public_key (RistrettoPublicKey_to_hex source_public_key) in
  let? destination_account_address :=
    get_account_address_from_public_key destination_public_key_hex in
  let? destination_public_key := RistrettoPublicKey_from_hex destination_public_key_hex in
  let? withdraw_resource := ResourceAddress_from_str resource_address in
  let? withdraw_resource_arg := arg_literal withdraw_resource in
  let? withdraw_amount_arg := arg_literal (Amount_new amount) in
  let instructions :=
    [ CallMethod source_account_address "withdraw"
        [withdraw_resource_arg; withdraw_amount_arg];
      PutLastInstructionOutputOnWorkspace (str_bytes "bucket") ] in
  let? instructions :=
    if create_destination_account then
      let? key_bytes :=
        expect MalformedInput
          (RistrettoPublicKeyBytes_from_bytes (public_key_as_bytes destination_public_key)) in
      let owner_token := NonFungibleAddress_from_public_key key_bytes in
      let template_address : TemplateAddress := from_array (replicate 32 Byte.x00) in
      let? owner_token_arg := arg_literal owner_token in
      Ok (instructions ++ [CallFunction template_address "create" [owner_token_arg]])
    else Ok instructions in
  let instructions :=
    instructions ++ [CallMethod destination_account_address "deposit"
                       [arg_workspace "bucket"]] in
  let? fee_arg := arg_literal (Amount_new fee) in
  let instructions :=
    instructions ++ [CallMethod source_account_address "pay_fee" [fee_arg]] in
  let? resource_address_obj := ResourceAddress_from_str resource_address in
  let resource_substate := Resource resource_address_obj in
  let resource_shard_id := ShardId_from_address resource_substate 0 in
  let input_refs := [resource_shard_id] in
  let? b := TransactionBuilder.with_fee_instructions instructions
              TransactionBuilder.builder in
  let? b := TransactionBuilder.with_input_refs input_refs b in
  let? b := TransactionBuilder.sign InstructionSignature source_private_key nonce b in
  let? transaction := TransactionBuilder.build b in
  ok_or EncodingFault (transaction_to_value transaction).

Definition create_free_test_coins_transaction (is_new_account : bool)
  (account_private_key : string) (amount fee : Z) (nonce : Nonce) : outcome JsValue :=
  let? account_private_key := RistrettoSecretKey_from_hex account_private_key in
  let account_public_key := from_secret_key account_private_key in
  let? account_component_address :=
    get_account_address_from_public_key (RistrettoPublicKey_to_hex account_public_key) in
  let instructions :=
    [ CreateFreeTestCoins (Amount_new amount) None;
      PutLastInstructionOutputOnWorkspace (str_bytes "free_test_coins") ] in
  let? instructions :=
    if is_new_account then
      let? key_bytes :=
        expect MalformedInput
          (RistrettoPublicKeyBytes_from_bytes (public_key_as_bytes account_public_key)) in
      let owner_token := NonFungibleAddress_from_public_key key_bytes in
      let template_address : TemplateAddress := from_array (replicate 32 Byte.x00) in
      let? owner_token_arg := arg_literal owner_token in
      Ok (instructions ++ [CallFunction template_address "create_with_bucket"
                             [owner_token_arg; arg_workspace "free_test_coins"]])
    else
      Ok (instructions ++ [CallMethod account_component_address "deposit"
                             [arg_workspace "free_test_coins"]]) in
  let? fee_arg := arg_literal (Amount_new fee) in
  let instructions :=
    instructions ++ [CallMethod account_component_address "pay_fee" [fee_arg]] in
  let? b := TransactionBuilder.with_fee_instructions instructions
              TransactionBuilder.builder in
  let? b := TransactionBuilder.sign InstructionSignature account_private_key nonce b in
  let? transaction := TransactionBuilder.build b in
  ok_or EncodingFault (transaction_to_value transaction).

(** *** Reference definitions *)

(** The transaction the builder makes of fee instructions, input
    references and a key. *)
Definition signed_transaction (secret_key : RistrettoSecretKey) (nonce : Nonce)
  (fee_instructions : list Instruction) (input_refs : list ShardId)
  : outcome Transaction.t :=
  let? s := TransactionSignature.sign InstructionSignature secret_key nonce
              fee_instructions in
  Ok {| Transaction.fee_instructions := fee_instructions;
        Transaction.instructions := [];
        Transaction.signature := s;
        Transaction.input_refs := input_refs |}.

(** The instructions of a transfer, with the encodings of the literal
    arguments. *)
Definition transfer_instructions (source destination : ComponentAddress)
  (resource amount : list byte) (owner_token : option (list byte)) (fee : list byte)
  : list Instruction :=
  [ CallMethod source "withdraw" [Literal resource; Literal amount];
    PutLastInstructionOutputOnWorkspace (str_bytes "bucket") ]
  ++ match owner_token with
     | Some o => [CallFunction (from_array (replicate 32 Byte.x00)) "create" [Literal o]]
     | None => []
     end
  ++ [ CallMethod destination "deposit" [Workspace (str_bytes "bucket")];
       CallMethod source "pay_fee" [Literal fee] ].

(** The instructions of a faucet transaction. *)
Definition free_test_coins_instructions (account : ComponentAddress) (amount : Z)
  (owner_token : option (list byte)) (fee : list byte) : list Instruction :=
  [ CreateFreeTestCoins (Amount_new amount) None;
    PutLastInstructionOutputOnWorkspace (str_bytes "free_test_coins") ]
  ++ match owner_token with
     | Some o =>
         [CallFunction (from_array (replicate 32 Byte.x00)) "create_with_bucket"
            [Literal o; Workspace (str_bytes "free_test_coins")]]
     | None =>
         [CallMethod account "deposit" [Workspace (str_bytes "free_test_coins")]]
     end
  ++ [ CallMethod account "pay_fee" [Literal fee] ].

(** The account address of a key of the library. *)
Definition account_of_key (p : RistrettoPublicKey) : ComponentAddress :=
  derived_address ACCOUNT_TEMPLATE_ADDRESS (from_array (public_key_as_bytes p)).

(** The owner token of a key of the library. *)
Definition owner_token_of_key (p : RistrettoPublicKey) : NonFungibleAddress :=
  NonFungibleAddress_from_public_key {| key_bytes := public_key_as_bytes p |}.

End Wallet.

(** ** Lemmas *)

Section WalletLemmas.
Context {Blake2b_U32 : Digest 32} {SC : Schnorr} {TL : TemplateLib} {WB : WasmBindgen}.
Variable L : EngineHashDomainLabel.

(** The builder, used as lib.rs uses it, is the reference transaction:
    no step of it fails by itself. *)
Lemma builder_chain_refs {A : Type} k r fee refs (K : Transaction.t -> outcome A) :
  (let? b := TransactionBuilder.with_fee_instructions fee TransactionBuilder.builder in
   let? b := TransactionBuilder.with_input_refs refs b in
   let? b := TransactionBuilder.sign L k r b in
   let? transaction := TransactionBuilder.build b in
   K transaction)
  = let? transaction := signed_transaction L k r fee refs in K transaction.
Proof.
  cbn [TransactionBuilder.with_fee_instructions TransactionBuilder.builder obind
       TransactionBuilder.with_input_refs TransactionBuilder.sign
       TransactionBuilder.fee_instructions TransactionBuilder.instructions
       TransactionBuilder.input_refs].
  unfold signed_transaction. now destruct (TransactionSignature.sign L k r fee).
Qed.

Lemma builder_chain_no_refs {A : Type} k r fee (K : Transaction.t -> outcome A) :
  (let? b := TransactionBuilder.with_fee_instructions fee TransactionBuilder.builder in
   let? b := TransactionBuilder.sign L k r b in
   let? transaction := TransactionBuilder.build b in
   K transaction)
  = let? transaction := signed_transaction L k r fee [] in K transaction.
Proof.
  cbn [TransactionBuilder.with_fee_instructions TransactionBuilder.builder obind
       TransactionBuilder.sign TransactionBuilder.fee_instructions
       TransactionBuilder.instructions TransactionBuilder.input_refs].
  unfold signed_transaction. now destruct (TransactionSignature.sign L k r fee).
Qed.

Lemma signed_transaction_inv k r fee refs tx :
  signed_transaction L k r fee refs = Ok tx ->
  Transaction.fee_instructions tx = fee /\ Transaction.instructions tx = []
  /\ Transaction.input_refs tx = refs
  /\ TransactionSignature.sign L k r fee = Ok (Transaction.signature tx).
Proof.
  unfold signed_transaction. intros (s & Hs & [= <-])%obind_ok_inv. auto.
Qed.

Lemma signed_transaction_cases k r fee refs :
  (exists tx, signed_transaction L k r fee refs = Ok tx)
  \/ signed_transaction L k r fee refs = Panic EncodingFault
  \/ signed_transaction L k r fee refs = Panic SigningFailure.
Proof.
  unfold signed_transaction.
  destruct (sign_cases L k r fee) as [[s ->]|[-> | ->]]; simpl; eauto.
Qed.

(** The hexadecimal form of a key of the library is always accepted by
    the address derivation. *)
Lemma account_address_of_key p :
  get_account_address_from_public_key (RistrettoPublicKey_to_hex p)
  = Ok (account_of_key p).
Proof.
  rewrite get_account_address_unfold. unfold RistrettoPublicKey_to_hex.
  change (to_hex (public_key_as_bytes p))
    with (Hash_to_hex (from_array (public_key_as_bytes p))).
  rewrite Hash_from_hex_to_hex; [reflexivity|].
  apply from_array_wf, public_key_as_bytes_length.
Qed.

(** The bytes of a key of the library are always an owner key. *)
Lemma key_bytes_of_key p :
  RistrettoPublicKeyBytes_from_bytes (public_key_as_bytes p)
  = Some {| key_bytes := public_key_as_bytes p |}.
Proof.
  apply RistrettoPublicKeyBytes_from_bytes_Some, public_key_as_bytes_length.
Qed.

Lemma arg_literal_unfold {T : Type} `{Serialize T} {A : Type} (value : T)
  (K : Arg -> outcome A) :
  (let? a := arg_literal value in K a)
  = let? e := expect EncodingFault (encoding value) in K (Literal e).
Proof. unfold arg_literal. now destruct (encoding value). Qed.

(** [create_transfer_transaction] as a pipeline of its parts. *)
Lemma create_transfer_transaction_unfold sk dst create ra amount fee nonce :
  create_transfer_transaction L sk dst create ra amount fee nonce
  = let? k := RistrettoSecretKey_from_hex sk in
    let? d := Hash_from_hex dst in
    let? p := RistrettoPublicKey_from_hex dst in
    let? r := ResourceAddress_from_str ra in
    let? e_r := expect EncodingFault (encoding r) in
    let? e_a := expect EncodingFault (encoding (Amount_new amount)) in
    let? owner :=
      if create
      then let? o := expect EncodingFault (encoding (owner_token_of_key p)) in
           Ok (Some o)
      else Ok None in
    let? e_f := expect EncodingFault (encoding (Amount_new fee)) in
    let? tx :=
      signed_transaction L k nonce
        (transfer_instructions (account_of_key (from_secret_key k))
           (derived_address ACCOUNT_TEMPLATE_ADDRESS d) e_r e_a owner e_f)
        [ShardId_from_address (Resource r) 0] in
    ok_or EncodingFault (transaction_to_value tx).
Proof.
  unfold create_transfer_transaction.
  destruct (RistrettoSecretKey_from_hex sk) as [k| |]; [|reflexivity..].
  rewrite !obind_ok, account_address_of_key, obind_ok, get_account_address_unfold.
  destruct (Hash_from_hex dst) as [d| |]; [|reflexivity..]. rewrite !obind_ok.
  destruct (RistrettoPublicKey_from_hex dst) as [p| |]; [|reflexivity..].
  rewrite !obind_ok.
  destruct (ResourceAddress_from_str ra) as [r| |]; [|reflexivity..].
  rewrite !obind_ok, !arg_literal_unfold.
  destruct (encoding r) as [e_r|]; [|reflexivity]. cbn [expect]. rewrite !obind_ok.
  rewrite arg_literal_unfold.
  destruct (encoding (Amount_new amount)) as [e_a|]; [|reflexivity].
  cbn [expect]. rewrite !obind_ok.
  destruct create.
  - rewrite key_bytes_of_key. cbn [expect]. rewrite obind_ok, arg_literal_unfold.
    fold (owner_token_of_key p).
    destruct (encoding (owner_token_of_key p)) as [o|]; [|reflexivity].
    cbn [expect]. rewrite !obind_ok, arg_literal_unfold.
    destruct (encoding (Amount_new fee)) as [e_f|]; [|reflexivity].
    cbn [expect]. rewrite !obind_ok. cbv zeta. rewrite builder_chain_refs.
    unfold transfer_instructions, arg_workspace. now rewrite <- !app_assoc.
  - rewrite !obind_ok, arg_literal_unfold.
    destruct (encoding (Amount_new fee)) as [e_f|]; [|reflexivity].
    cbn [expect]. rewrite !obind_ok. cbv zeta. rewrite builder_chain_refs.
    unfold transfer_instructions, arg_workspace. now rewrite <- !app_assoc.
Qed.

(** [create_free_test_coins_transaction] as a pipeline of its parts. *)
Lemma create_free_test_coins_transaction_unfold is_new sk amount fee nonce :
  create_free_test_coins_transaction L is_new sk amount fee nonce
  = let? k := RistrettoSecretKey_from_hex sk in
    let? owner :=
      if is_new
      then let? o := expect EncodingFault
                       (encoding (owner_token_of_key (from_secret_key k))) in
           Ok (Some o)
      else Ok None in
    let? e_f := expect EncodingFault (encoding (Amount_new fee)) in
    let? tx :=
      signed_transaction L k nonce
        (free_test_coins_instructions (account_of_key (from_secret_key k))
           amount owner e_f) [] in
    ok_or EncodingFault (transaction_to_value tx).
Proof.
  unfold create_free_test_coins_transaction.
  destruct (RistrettoSecretKey_from_hex sk) as [k| |]; [|reflexivity..].
  rewrite !obind_ok, account_address_of_key, obind_ok.
  destruct is_new.
  - rewrite key_bytes_of_key. cbn [expect]. rewrite obind_ok, arg_literal_unfold.
    fold (owner_token_of_key (from_secret_key k)).
    destruct (encoding (owner_token_of_key _)) as [o|]; [|reflexivity].
    cbn [expect]. rewrite !obind_ok, arg_literal_unfold.
    destruct (encoding (Amount_new fee)) as [e_f|]; [|reflexivity].
    cbn [expect]. rewrite !obind_ok. cbv zeta. rewrite builder_chain_no_refs.
    unfold free_test_coins_instructions, arg_workspace. now rewrite <- !app_assoc.
  - rewrite !obind_ok, arg_literal_unfold.
    destruct (encoding (Amount_new fee)) as [e_f|]; [|reflexivity].
    cbn [expect]. rewrite !obind_ok. cbv zeta. rewrite builder_chain_no_refs.
    unfold free_test_coins_instructions, arg_workspace. now rewrite <- !app_assoc.
Qed.

(** *** Faults of the parts *)

Section Faults.
Variables (E P : list Fault).
Hypothesis malformed : In MalformedInput E.
Hypothesis encoding_fault : In EncodingFault P.
Hypothesis signing_failure : In SigningFailure P.

Lemma faults_in_secret_key hex : faults_in (RistrettoSecretKey_from_hex hex) E P.
Proof. now destruct (RistrettoSecretKey_from_hex_cases hex) as [[k ->]| ->]. Qed.

Lemma faults_in_public_key hex : faults_in (RistrettoPublicKey_from_hex hex) E P.
Proof. now destruct (RistrettoPublicKey_from_hex_cases hex) as [[k ->]| ->]. Qed.

Lemma faults_in_hash hex : faults_in (Hash_from_hex hex) E P.
Proof. now destruct (Hash_from_hex_cases hex) as [[k ->]| ->]. Qed.

Lemma faults_in_resource s : faults_in (ResourceAddress_from_str s) E P.
Proof. now destruct (ResourceAddress_from_str_cases s) as [[k ->]| ->]. Qed.

Lemma faults_in_signed_transaction k r fee refs :
  faults_in (signed_transaction L k r fee refs) E P.
Proof.
  now destruct (signed_transaction_cases k r fee refs) as [[tx ->]|[-> | ->]].
Qed.

End Faults.

End WalletLemmas.

#[export] Hint Resolve faults_in_secret_key faults_in_public_key faults_in_hash
  faults_in_resource faults_in_signed_transaction : tari.

(** ** Theorems *)

Section WalletTheorems.
Context {Blake2b_U32 : Digest 32} {SC : Schnorr} {TL : TemplateLib} {WB : WasmBindgen}.
Variable L : EngineHashDomainLabel.

(** C14: [create_transaction] on every path: it parses the key, then the
    instructions, then the input references, each failure being
    [MalformedInput] in this order; it signs the instructions as fee
    instructions and returns the serialized transaction with exactly the
    instructions and references it was given.  The builder never
    refuses. *)
Theorem create_transaction_spec (account_private_key_hex : string)
  (instructions_js input_refs_js : JsValue) (nonce : Nonce) :
  create_transaction L account_private_key_hex instructions_js input_refs_js nonce
  = let? k := RistrettoSecretKey_from_hex account_private_key_hex in
    let? instructions := ok_or MalformedInput (instructions_from_value instructions_js) in
    let? input_refs := ok_or MalformedInput (input_refs_from_value input_refs_js) in
    let? s := TransactionSignature.sign L k nonce instructions in
    ok_or EncodingFault
      (transaction_to_value
         {| Transaction.fee_instructions := instructions;
            Transaction.instructions := [];
            Transaction.signature := s;
            Transaction.input_refs := input_refs |}).
Proof.
  unfold create_transaction.
  destruct (RistrettoSecretKey_from_hex _) as [k| |]; [|reflexivity..].
  destruct (instructions_from_value _) as [instrs|]; [|reflexivity].
  destruct (input_refs_from_value _) as [refs|]; [|reflexivity].
  cbn [ok_or]. rewrite !obind_ok, builder_chain_refs. unfold signed_transaction.
  now destruct (TransactionSignature.sign L k nonce instrs).
Qed.

(** C6: what a successful [create_transfer_transaction] returns: the
    serialization of a transaction whose fee instructions are, in this
    order, the withdrawal from the source account, the staging of the
    bucket, the creation of the destination account when asked for, the
    deposit to the destination account and the payment of the fee from
    the source account; whose only input reference is the shard of the
    resource; and whose signature is made with the source key and
    verifies on these instructions. *)
Theorem create_transfer_transaction_spec (source_private_key : string)
  (destination_public_key_hex : string) (create_destination_account : bool)
  (resource_address : string) (amount fee : Z) (nonce : Nonce) (js : JsValue) :
  create_transfer_transaction L source_private_key destination_public_key_hex
    create_destination_account resource_address amount fee nonce = Ok js ->
  exists k d p r e_r e_a owner e_f tx,
    RistrettoSecretKey_from_hex source_private_key = Ok k
    /\ Hash_from_hex destination_public_key_hex = Ok d
    /\ RistrettoPublicKey_from_hex destination_public_key_hex = Ok p
    /\ ResourceAddress_from_str resource_address = Ok r
    /\ encoding r = Some e_r
    /\ encoding (Amount_new amount) = Some e_a
    /\ match owner with
       | Some o => create_destination_account = true
                   /\ encoding (owner_token_of_key p) = Some o
       | None => create_destination_account = false
       end
    /\ encoding (Amount_new fee) = Some e_f
    /\ Transaction.fee_instructions tx
       = transfer_instructions (account_of_key (from_secret_key k))
           (derived_address ACCOUNT_TEMPLATE_ADDRESS d) e_r e_a owner e_f
    /\ Transaction.instructions tx = []
    /\ Transaction.input_refs tx = [ShardId_from_address (Resource r) 0]
    /\ TransactionSignature.sign L k nonce (Transaction.fee_instructions tx)
       = Ok (Transaction.signature tx)
    /\ TransactionSignature.verify L (Transaction.signature tx)
         (Transaction.fee_instructions tx) = Ok tt
    /\ transaction_to_value tx = Some js.
Proof.
  rewrite create_transfer_transaction_unfold.
  intros (k & Hk & H)%obind_ok_inv. apply obind_ok_inv in H as (d & Hd & H).
  apply obind_ok_inv in H as (p & Hp & H). apply obind_ok_inv in H as (r & Hr & H).
  apply obind_ok_inv in H as (e_r & Her%expect_ok_inv & H).
  apply obind_ok_inv in H as (e_a & Hea%expect_ok_inv & H).
  apply obind_ok_inv in H as (owner & Ho & H).
  apply obind_ok_inv in H as (e_f & Hef%expect_ok_inv & H).
  apply obind_ok_inv in H as (tx & Htx & Hjs%ok_or_ok_inv).
  apply signed_transaction_inv in Htx as (Hfee & Hi & Hrefs & Hs).
  exists k, d, p, r, e_r, e_a, owner, e_f, tx. rewrite Hfee.
  repeat split; try assumption.
  - destruct create_destination_account; [|injection Ho as <-; reflexivity].
    apply obind_ok_inv in Ho as (o & Ho'%expect_ok_inv & [= <-]). now split.
  - now apply (verify_signed L k nonce).
Qed.

(** C16: the faults of [create_transfer_transaction]: an error it
    returns is [MalformedInput] (a key, the destination or the resource
    address does not parse) or [EncodingFault] (the transaction does not
    serialize); a panic is [EncodingFault] or [SigningFailure], raised by
    the encoder or the primitive.  The builder is never misused and the
    [unwrap] of the destination key's bytes never panics. *)
Theorem create_transfer_transaction_faults (source_private_key : string)
  (destination_public_key_hex : string) (create_destination_account : bool)
  (resource_address : string) (amount fee : Z) (nonce : Nonce) :
  faults_in
    (create_transfer_transaction L source_private_key destination_public_key_hex
       create_destination_account resource_address amount fee nonce)
    [MalformedInput; EncodingFault] [EncodingFault; SigningFailure].
Proof.
  rewrite create_transfer_transaction_unfold.
  destruct create_destination_account; faults_in_pipeline.
Qed.

(** C15: what a successful [create_free_test_coins_transaction] returns:
    the serialization of a transaction whose fee instructions are the
    minting of the coins, their staging, the creation of the account
    with the bucket for a new account or the deposit to the account
    otherwise, and the payment of the fee; without input references;
    signed with the account key, the signature verifying on these
    instructions. *)
Theorem create_free_test_coins_transaction_spec (is_new_account : bool)
  (account_private_key : string) (amount fee : Z) (nonce : Nonce) (js : JsValue) :
  create_free_test_coins_transaction L is_new_account account_private_key amount fee
    nonce = Ok js ->
  exists k owner e_f tx,
    RistrettoSecretKey_from_hex account_private_key = Ok k
    /\ match owner with
       | Some o => is_new_account = true
                   /\ encoding (owner_token_of_key (from_secret_key k)) = Some o
       | None => is_new_account = false
       end
    /\ encoding (Amount_new fee) = Some e_f
    /\ Transaction.fee_instructions tx
       = free_test_coins_instructions (account_of_key (from_secret_key k))
           amount owner e_f
    /\ Transaction.instructions tx = []
    /\ Transaction.input_refs tx = []
    /\ TransactionSignature.sign L k nonce (Transaction.fee_instructions tx)
       = Ok (Transaction.signature tx)
    /\ TransactionSignature.verify L (Transaction.signature tx)
         (Transaction.fee_instructions tx) = Ok tt
    /\ transaction_to_value tx = Some js.
Proof.
  rewrite create_free_test_coins_transaction_unfold.
  intros (k & Hk & H)%obind_ok_inv. apply obind_ok_inv in H as (owner & Ho & H).
  apply obind_ok_inv in H as (e_f & Hef%expect_ok_inv & H).
  apply obind_ok_inv in H as (tx & Htx & Hjs%ok_or_ok_inv).
  apply signed_transaction_inv in Htx as (Hfee & Hi & Hrefs & Hs).
  exists k, owner, e_f, tx. rewrite Hfee.
  repeat split; try assumption.
  - destruct is_new_account; [|injection Ho as <-; reflexivity].
    apply obind_ok_inv in Ho as (o & Ho'%expect_ok_inv & [= <-]). now split.
  - now apply (verify_signed L k nonce).
Qed.

(** C33: the faults of [create_free_test_coins_transaction]. *)
Theorem create_free_test_coins_transaction_faults (is_new_account : bool)
  (account_private_key : string) (amount fee : Z) (nonce : Nonce) :
  faults_in
    (create_free_test_coins_transaction L is_new_account account_private_key amount
       fee nonce)
    [MalformedInput; EncodingFault] [EncodingFault; SigningFailure].
Proof.
  rewrite create_free_test_coins_transaction_unfold.
  destruct is_new_account; faults_in_pipeline.
Qed.

(** C25: a transfer between well-formed parties succeeds.  When the
    strings parse, the amounts are [i64], the primitive signs every
    32-byte message, the encoder accepts the instructions of the
    transfer and the binding layer serializes transactions,
    [create_transfer_transaction] returns a value: it neither fails nor
    panics. *)
Theorem create_transfer_transaction_total `{!SchnorrTotal SC}
  (source_private_key : string) (destination_public_key_hex : string)
  (create_destination_account : bool) (resource_address : string) (amount fee : Z)
  (nonce : Nonce) k d p r :
  RistrettoSecretKey_from_hex source_private_key = Ok k ->
  Hash_from_hex destination_public_key_hex = Ok d ->
  RistrettoPublicKey_from_hex destination_public_key_hex = Ok p ->
  ResourceAddress_from_str resource_address = Ok r ->
  i64_range amount -> i64_range fee ->
  (forall e_r e_a e_f,
     encoding r = Some e_r -> encoding (Amount_new amount) = Some e_a ->
     encoding (Amount_new fee) = Some e_f ->
     encodable
       (transfer_instructions (account_of_key (from_secret_key k))
          (derived_address ACCOUNT_TEMPLATE_ADDRESS d) e_r e_a
          (if create_destination_account
           then encoding (owner_token_of_key p) else None) e_f)) ->
  (forall tx, is_Some (transaction_to_value tx)) ->
  exists js,
    create_transfer_transaction L source_private_key destination_public_key_hex
      create_destination_account resource_address amount fee nonce = Ok js.
Proof.
  intros Hk Hd Hp Hr Ha Hf Henc Hjs.
  rewrite create_transfer_transaction_unfold, Hk, Hd, Hp, Hr. rewrite !obind_ok.
  destruct (ResourceAddress_encodable r (ResourceAddress_from_str_wf _ _ Hr))
    as [e_r He_r].
  destruct (Amount_encodable (Amount_new amount) Ha) as [e_a He_a].
  destruct (Amount_encodable (Amount_new fee) Hf) as [e_f He_f].
  destruct (NonFungibleAddress_encodable (owner_token_of_key p)
              (public_key_as_bytes_length p)) as [o Ho].
  specialize (Henc e_r e_a e_f He_r He_a He_f).
  rewrite He_r, He_a, He_f. cbn [expect]. rewrite !obind_ok.
  assert (exists owner,
    (if create_destination_account
     then let? o := expect EncodingFault (encoding (owner_token_of_key p)) in
          Ok (Some o)
     else Ok None) = Ok owner
    /\ owner = (if create_destination_account
                then encoding (owner_token_of_key p) else None))
    as (owner & -> & ->)
    by (destruct create_destination_account; [rewrite Ho|]; eauto).
  rewrite !obind_ok. unfold signed_transaction.
  destruct (sign_encodable L k nonce _ Henc) as [ts ->]. rewrite !obind_ok.
  match goal with
  | |- context [transaction_to_value ?tx] => destruct (Hjs tx) as [js ->]
  end.
  eauto.
Qed.

(** C31: a public key the library exports is accepted by the address
    derivation: the string [build_ristretto_public_key] returns is 64
    hexadecimal digits, and [get_account_component_address] maps it to
    the address of the account of that key. *)
Theorem build_ristretto_public_key_accepted (ecdsa_private_key : string) (h : string) :
  build_ristretto_public_key ecdsa_private_key = Ok h ->
  String.length h = 64
  /\ exists k, RistrettoSecretKey_from_hex ecdsa_private_key = Ok k
       /\ get_account_component_address h
          = Ok (ComponentAddress_to_string (account_of_key (from_secret_key k))).
Proof.
  unfold build_ristretto_public_key. intros (k & Hk & [= <-])%obind_ok_inv.
  split; [apply RistrettoPublicKey_to_hex_length|].
  exists k. split; [assumption|].
  unfold get_account_component_address. now rewrite account_address_of_key.
Qed.

(** C32: account addresses determine the key.  If two public keys get
    the same account address string, they decode to the same bytes, or
    two different streams with the same Blake2b digest are at hand. *)
Theorem get_account_component_address_inj (pk1 pk2 : string) (s : string) :
  get_account_component_address pk1 = Ok s ->
  get_account_component_address pk2 = Ok s ->
  exists d1 d2, Hash_from_hex pk1 = Ok d1 /\ Hash_from_hex pk2 = Ok d2
    /\ (d1 = d2
        \/ Collision (n := 32) (address_preimage ACCOUNT_TEMPLATE_ADDRESS d1)
             (address_preimage ACCOUNT_TEMPLATE_ADDRESS d2)).
Proof.
  unfold get_account_component_address. rewrite !get_account_address_unfold.
  intros (a1 & (d1 & Hd1 & [= <-])%obind_ok_inv & [= <-])%obind_ok_inv
         (a2 & (d2 & Hd2 & [= <-])%obind_ok_inv & Hs)%obind_ok_inv.
  exists d1, d2. repeat split; try assumption.
  assert (Hs' : ComponentAddress_to_string (derived_address ACCOUNT_TEMPLATE_ADDRESS d1)
                = ComponentAddress_to_string (derived_address ACCOUNT_TEMPLATE_ADDRESS d2))
    by congruence.
  clear Hs. apply ComponentAddress_to_string_inj in Hs' as Hs.
  destruct (decide (address_preimage ACCOUNT_TEMPLATE_ADDRESS d1
                    = address_preimage ACCOUNT_TEMPLATE_ADDRESS d2)) as [E|E].
  - left. apply address_preimage_inj in E as [_ E];
      [exact E | first [apply ACCOUNT_TEMPLATE_ADDRESS_wf
                       | eapply Hash_from_hex_wf; eassumption]..].
  - right. split; [assumption|].
    unfold derived_address, ComponentAddress_new, from_array in Hs. congruence.
Qed.

(** C34: [build_ristretto_private_key] returns the error
    [MalformedInput] or 64 hexadecimal digits, and never panics; the
    digits are those of the secret key the argument parses to: they
    decode to the bytes of that key. *)
Theorem build_ristretto_private_key_outcome (ecdsa_private_key : string) :
  faults_in (build_ristretto_private_key ecdsa_private_key) [MalformedInput] []
  /\ forall h, build_ristretto_private_key ecdsa_private_key = Ok h ->
       String.length h = 64 /\ is_Some (from_hex h)
       /\ exists k, RistrettoSecretKey_from_hex ecdsa_private_key = Ok k
            /\ from_hex h = Some (secret_key_as_bytes k).
Proof.
  unfold build_ristretto_private_key. split.
  - destruct (RistrettoSecretKey_from_hex_cases ecdsa_private_key) as [[k ->]| ->];
      simpl; auto.
  - intros h (k & Hk & [= <-])%obind_ok_inv.
    unfold RistrettoSecretKey_to_hex. rewrite from_hex_to_hex.
    split; [apply RistrettoSecretKey_to_hex_length | eauto].
Qed.

End WalletTheorems.

(** ** Witnesses

    The exposed operations run with the window digest, the toy
    primitive, the reference encoder and a binding layer whose values are
    the program's values. *)

Inductive ToyJs : Type :=
  | JsInstructions (l : list Instruction)
  | JsInputRefs (l : list ShardId)
  | JsTransaction (tx : Transaction.t (SC := ToySchnorr)).

#[export] Instance ToyBindgen : WasmBindgen (SC := ToySchnorr) := {|
  JsValue := ToyJs;
  instructions_from_value v :=
    match v with JsInstructions l => Some l | _ => None end;
  input_refs_from_value v :=
    match v with JsInputRefs l => Some l | _ => None end;
  transaction_to_value tx := Some (JsTransaction tx)
|}.

Definition sample_secret_hex : string :=
  "0500000000000000000000000000000000000000000000000000000000000000".

Definition sample_resource : string :=
  "resource_0101010101010101010101010101010101010101010101010101010101010101".

Definition sample_destination_key : Z :=
  Eval vm_compute in LittleEndianList.le_combine sample_key32.

Definition window_transfer (create : bool) : outcome ToyJs :=
  create_transfer_transaction (Blake2b_U32 := WindowDigest 32) (TL := BorTemplateLib)
    Labels.TransactionSignature sample_secret_hex sample_key_hex create
    sample_resource 100 1 11%Z.

Definition window_free_test_coins (is_new : bool) : outcome ToyJs :=
  create_free_test_coins_transaction (Blake2b_U32 := WindowDigest 32)
    (TL := BorTemplateLib) Labels.TransactionSignature is_new sample_secret_hex
    100 1 11%Z.

Definition sample_transfer_js : ToyJs :=
  Eval vm_compute in
    match window_transfer true with Ok js => js | _ => JsInstructions [] end.

Definition sample_free_test_coins_js : ToyJs :=
  Eval vm_compute in
    match window_free_test_coins false with Ok js => js | _ => JsInstructions [] end.

Lemma create_transfer_transaction_spec_witness :
  exists tx,
    sample_transfer_js = JsTransaction tx
    /\ length (Transaction.fee_instructions tx) = 5
    /\ TransactionSignature.verify (Blake2b_U32 := WindowDigest 32)
         (TL := BorTemplateLib) Labels.TransactionSignature
         (Transaction.signature tx) (Transaction.fee_instructions tx) = Ok tt.
Proof.
  destruct (create_transfer_transaction_spec (Blake2b_U32 := WindowDigest 32)
              (SC := ToySchnorr) (TL := BorTemplateLib) (WB := ToyBindgen)
              Labels.TransactionSignature
              sample_secret_hex sample_key_hex true sample_resource 100 1 11%Z
              sample_transfer_js eq_refl)
    as (k & d & p & r & e_r & e_a & owner & e_f & tx & _ & _ & _ & _ & _ & _ & Ho
        & _ & Hfee & _ & _ & _ & Hv & Hjs).
  exists tx. change (Some (JsTransaction tx) = Some sample_transfer_js) in Hjs.
  repeat split; [congruence | | exact Hv].
  rewrite Hfee. unfold transfer_instructions.
  destruct owner as [o|]; [reflexivity | discriminate Ho].
Defined.

Lemma create_free_test_coins_transaction_spec_witness :
  exists tx,
    sample_free_test_coins_js = JsTransaction tx
    /\ Transaction.input_refs tx = []
    /\ TransactionSignature.verify (Blake2b_U32 := WindowDigest 32)
         (TL := BorTemplateLib) Labels.TransactionSignature
         (Transaction.signature tx) (Transaction.fee_instructions tx) = Ok tt.
Proof.
  destruct (create_free_test_coins_transaction_spec (Blake2b_U32 := WindowDigest 32)
              (SC := ToySchnorr) (TL := BorTemplateLib) (WB := ToyBindgen)
              Labels.TransactionSignature
              false sample_secret_hex 100 1 11%Z sample_free_test_coins_js eq_refl)
    as (k & owner & e_f & tx & _ & _ & _ & _ & _ & Hrefs & _ & Hv & Hjs).
  exists tx. change (Some (JsTransaction tx) = Some sample_free_test_coins_js) in Hjs.
  repeat split; [congruence | exact Hrefs | exact Hv].
Defined.

Lemma create_transfer_transaction_total_witness :
  exists js, window_transfer true = Ok js.
Proof.
  apply (create_transfer_transaction_total (Blake2b_U32 := WindowDigest 32)
           (SC := ToySchnorr) (TL := BorTemplateLib) (WB := ToyBindgen)
           Labels.TransactionSignature
           sample_secret_hex sample_key_hex true sample_resource 100 1 11%Z
           5%Z sample_hash sample_destination_key
           {| resource_hash := from_array (replicate 32 Byte.x01) |});
    try reflexivity; try (unfold i64_range; lia).
  - intros e_r e_a e_f H1 H2 H3. vm_compute in H1, H2, H3.
    injection H1 as <-. injection H2 as <-. injection H3 as <-.
    vm_compute. eauto.
  - intros tx. simpl. eauto.
Defined.

Lemma build_ristretto_public_key_accepted_witness :
  String.length "2d00000000000000000000000000000000000000000000000000000000000000"
  = 64
  /\ exists k, RistrettoSecretKey_from_hex (S := ToySchnorr) sample_secret_hex = Ok k
       /\ get_account_component_address (Blake2b_U32 := WindowDigest 32)
            "2d00000000000000000000000000000000000000000000000000000000000000"
          = Ok (ComponentAddress_to_string
                  (account_of_key (Blake2b_U32 := WindowDigest 32)
                     (from_secret_key k))).
Proof.
  apply (build_ristretto_public_key_accepted (Blake2b_U32 := WindowDigest 32)
           (SC := ToySchnorr) sample_secret_hex).
  reflexivity.
Defined.

(** Under a digest that only counts, the accounts of two different keys
    have the same address: the collision the reduction exhibits. *)
Definition other_key_hex : string :=
  Eval vm_compute in to_hex (hash_bytes other_hash).

Definition count_address_string : string :=
  Eval vm_compute in
    match get_account_component_address (Blake2b_U32 := CountDigest 32) sample_key_hex with
    | Ok s => s
    | _ => EmptyString
    end.

Lemma get_account_component_address_inj_witness :
  Collision (D := CountDigest 32)
    (address_preimage ACCOUNT_TEMPLATE_ADDRESS sample_hash)
    (address_preimage ACCOUNT_TEMPLATE_ADDRESS other_hash).
Proof.
  destruct (get_account_component_address_inj (Blake2b_U32 := CountDigest 32)
              sample_key_hex other_key_hex count_address_string)
    as (d1 & d2 & H1 & H2 & H); [reflexivity | reflexivity |].
  vm_compute in H1, H2. injection H1 as <-. injection H2 as <-.
  destruct H as [E|C]; [discriminate E | exact C].
Defined.
